(** * chatApi.js: the chat/session client of Carpulse-frontend

    A shallow embedding of [src/api/chatApi.js] and of the parts of the
    JavaScript platform the file calls (string methods, [TextDecoder],
    [JSON.parse], [String.prototype.match], [fetch]), followed by the
    properties of the six exported operations.

    Conventions.
    - A JavaScript string is the list of its UTF-16 code units ([jsstring]).
    - A [Uint8Array] is a list of bytes, each a [Z] in [0, 255].
    - An [async] function is a program [Prog A] whose only visible effect
      is [fetch]; running it against a world gives the requests it issued
      and the way its promise settled ([Return] or [Throw]). *)

From Stdlib Require Import String Ascii DecimalString.
From Stdlib Require Import List ZArith Bool Lia.
Import ListNotations.
Local Open Scope Z_scope.
#[local] Set Warnings "-register-all".

(* ================================================================== *)
(** * JavaScript strings *)
(* ================================================================== *)

Definition jsstring := list Z.

(** [js "abc"]: the JavaScript string with the given ASCII characters. *)
Definition js (s : string) : jsstring :=
  map (fun a => Z.of_N (N_of_ascii a)) (list_ascii_of_string s).

(** [jsq "{'a':1}"]: as [js], with every apostrophe standing for a double
    quote (code unit 34), so that JSON texts can be written down. *)
Definition jsq (s : string) : jsstring :=
  map (fun c => if c =? 39 then 34 else c) (js s).

Definition LF : Z := 10.

Fixpoint jsstring_eqb (a b : jsstring) : bool :=
  match a, b with
  | [], [] => true
  | x :: a', y :: b' => (x =? y) && jsstring_eqb a' b'
  | _, _ => false
  end.

(** WhiteSpace and LineTerminator code points of ECMAScript: what
    [String.prototype.trim] strips and what [\s] matches. *)
Definition is_white_space (c : Z) : bool :=
  (c =? 9) || (c =? 10) || (c =? 11) || (c =? 12) || (c =? 13) || (c =? 32)
  || (c =? 160) || (c =? 5760) || ((8192 <=? c) && (c <=? 8202))
  || (c =? 8232) || (c =? 8233) || (c =? 8239) || (c =? 8287)
  || (c =? 12288) || (c =? 65279).

Fixpoint trimStart (s : jsstring) : jsstring :=
  match s with
  | c :: s' => if is_white_space c then trimStart s' else s
  | [] => []
  end.

Definition trimEnd (s : jsstring) : jsstring := rev (trimStart (rev s)).

(** [s.trim()] *)
Definition trim (s : jsstring) : jsstring := trimEnd (trimStart s).

(** [s.indexOf(c)] for a one-character search string: the index of the
    first occurrence, [-1] when there is none. *)
Fixpoint indexOf (s : jsstring) (c : Z) : Z :=
  match s with
  | [] => -1
  | x :: s' =>
      if x =? c then 0
      else let i := indexOf s' c in if i =? -1 then -1 else i + 1
  end.

(** Relative index of [slice]: negative counts from the end, and the result
    is clamped to [0, len]. *)
Definition slice_index (len i : Z) : Z :=
  if i <? 0 then Z.max (len + i) 0 else Z.min i len.

(** [s.slice(start, end)] *)
Definition slice (s : jsstring) (start stop : Z) : jsstring :=
  let len := Z.of_nat (length s) in
  let from := slice_index len start in
  let to := slice_index len stop in
  firstn (Z.to_nat (to - from)) (skipn (Z.to_nat from) s).

(** [s.slice(start)] *)
Definition slice_from (s : jsstring) (start : Z) : jsstring :=
  slice s start (Z.of_nat (length s)).

(** [s.startsWith(p)] *)
Fixpoint startsWith (s p : jsstring) : bool :=
  match p, s with
  | [], _ => true
  | y :: p', x :: s' => (x =? y) && startsWith s' p'
  | _ :: _, [] => false
  end.

(** [String(n)] for an integral Number: the decimal digits, with a minus
    sign when negative. *)
Definition Number_toString (n : Z) : jsstring :=
  js (NilZero.string_of_int (Z.to_int n)).

(* ================================================================== *)
(** * TextDecoder: the WHATWG UTF-8 decoder, without fatal mode *)
(* ================================================================== *)

Module TextDecoder.

(** The decoder's variables, plus the [BOM seen] flag of the
    [TextDecoder] object that owns it. *)
Record t := mk {
  code_point : Z;
  bytes_seen : Z;
  bytes_needed : Z;
  lower_boundary : Z;
  upper_boundary : Z;
  bom_seen : bool
}.

(** [new TextDecoder()] *)
Definition create : t :=
  mk 0 0 0 128 191 false.

Definition replacement : Z := 65533.

(** The handler on a byte when [bytes needed] is 0 (step 3 of the
    standard's handler). It returns the new state and the code points
    emitted; an error emits U+FFFD. *)
Definition lead (d : t) (byte : Z) : t * list Z :=
  let bom := bom_seen d in
  if (0 <=? byte) && (byte <=? 127) then (d, [byte])
  else if (194 <=? byte) && (byte <=? 223) then
    (mk (Z.land byte 31) 0 1 128 191 bom, [])
  else if (224 <=? byte) && (byte <=? 239) then
    (mk (Z.land byte 15) 0 2
        (if byte =? 224 then 160 else 128)
        (if byte =? 237 then 159 else 191) bom, [])
  else if (240 <=? byte) && (byte <=? 244) then
    (mk (Z.land byte 7) 0 3
        (if byte =? 240 then 144 else 128)
        (if byte =? 244 then 143 else 191) bom, [])
  else (d, [replacement]).

(** The handler on one byte. A byte outside the expected range of a
    continuation resets the decoder, emits U+FFFD and is processed again
    as a lead byte. *)
Definition handler (d : t) (byte : Z) : t * list Z :=
  if bytes_needed d =? 0 then lead d byte
  else if negb ((lower_boundary d <=? byte) && (byte <=? upper_boundary d))
  then
    let '(d', out) := lead (mk 0 0 0 128 191 (bom_seen d)) byte in
    (d', replacement :: out)
  else
    let cp := Z.lor (Z.shiftl (code_point d) 6) (Z.land byte 63) in
    let seen := bytes_seen d + 1 in
    if seen =? bytes_needed d
    then (mk 0 0 0 128 191 (bom_seen d), [cp])
    else (mk cp seen (bytes_needed d) 128 191 (bom_seen d), []).

(** A code point as UTF-16 code units. *)
Definition code_units (cp : Z) : jsstring :=
  if cp <? 65536 then [cp]
  else [55296 + Z.shiftr (cp - 65536) 10; 56320 + Z.land (cp - 65536) 1023].

(** Serialising the emitted code points: the first one is dropped when
    it is the byte order mark U+FEFF. *)
Fixpoint serialize (bom : bool) (cps : list Z) : bool * jsstring :=
  match cps with
  | [] => (bom, [])
  | cp :: rest =>
      if negb bom && (cp =? 65279) then serialize true rest
      else let '(b, s) := serialize true rest in (b, code_units cp ++ s)
  end.

Definition set_bom (d : t) (b : bool) : t :=
  mk (code_point d) (bytes_seen d) (bytes_needed d)
     (lower_boundary d) (upper_boundary d) b.

(** One byte through the decoder, as text. *)
Definition step (d : t) (byte : Z) : t * jsstring :=
  let '(d', cps) := handler d byte in
  let '(b, s) := serialize (bom_seen d') cps in
  (set_bom d' b, s).

(** [decoder.decode(value, { stream: true })]: every byte of the chunk
    goes through the handler; the state is kept for the next call and
    nothing is flushed. *)
Fixpoint decode_stream (d : t) (value : list Z) : t * jsstring :=
  match value with
  | [] => (d, [])
  | byte :: rest =>
      let '(d1, s1) := step d byte in
      let '(d2, s2) := decode_stream d1 rest in
      (d2, s1 ++ s2)
  end.

(** The end of the queue: an unfinished sequence gives one U+FFFD. *)
Definition flush (d : t) : jsstring :=
  if bytes_needed d =? 0 then [] else [replacement].

(** "UTF-8 decode" of a whole body, as [res.text()] and [res.json()]
    apply it: a fresh decoder, all bytes, then the end of the queue. *)
Definition decode (bytes : list Z) : jsstring :=
  let '(d, s) := decode_stream create bytes in s ++ flush d.

End TextDecoder.

(* ================================================================== *)
(** * JavaScript values and JSON.parse *)
(* ================================================================== *)

(** A Number that came from a JSON literal, kept as its exact decimal
    value [(-1)^neg * mant * 10^exp10], with [mant] free of trailing
    zeros.  JavaScript rounds that value to a binary64; the only use the
    client makes of a Number is its truthiness, which [rounds_to_zero]
    decides exactly. *)
Record number := mkNumber { neg : bool; mant : Z; exp10 : Z }.

Inductive value :=
| Undefined
| Null
| Bool (b : bool)
| Number (n : number)
| Str (s : jsstring)
| Array (elements : list value)
| Object (properties : list (jsstring * value)).

(** A decimal rounds to [+0] or [-0] when its magnitude is at most
    [2^-1075], half of the least positive binary64 (a tie goes to the
    even neighbour, zero). *)
Definition rounds_to_zero (n : number) : bool :=
  (mant n =? 0)
  || ((exp10 n <? 0) && (mant n * 2 ^ 1075 <=? 10 ^ (- exp10 n))).

(** ToBoolean *)
Definition truthy (v : value) : bool :=
  match v with
  | Undefined | Null => false
  | Bool b => b
  | Number n => negb (rounds_to_zero n)
  | Str s => match s with [] => false | _ => true end
  | Array _ | Object _ => true
  end.

(** [a || b] *)
Definition or_else (a b : value) : value := if truthy a then a else b.

(** An own property of an object, [Undefined] when there is none. *)
Fixpoint lookup (key : jsstring) (props : list (jsstring * value)) : value :=
  match props with
  | [] => Undefined
  | (k, v) :: rest => if jsstring_eqb k key then v else lookup key rest
  end.

(** CreateDataProperty: a repeated key keeps its place and takes the new
    value, a new key goes last. *)
Fixpoint define (props : list (jsstring * value)) (key : jsstring) (v : value)
  : list (jsstring * value) :=
  match props with
  | [] => [(key, v)]
  | (k, w) :: rest =>
      if jsstring_eqb k key then (k, v) :: rest else (k, w) :: define rest key v
  end.

(** [v?.key] for a value that came out of [JSON.parse] and a key that no
    prototype defines: only an object carries such a property, and [?.]
    gives [undefined] on [null] and [undefined]. *)
Definition get (key : jsstring) (v : value) : value :=
  match v with
  | Object props => lookup key props
  | _ => Undefined
  end.

(** [parsed?.content]: the prototypes of objects, arrays, strings, numbers
    and booleans have no property of that name. *)
Definition get_content (v : value) : value := get (js "content") v.

Module JSON.

Inductive result :=
| Ok (v : value) (rest : jsstring)
| SyntaxError
| OutOfFuel.

(** JSON white space: tab, line feed, carriage return, space. *)
Definition is_ws (c : Z) : bool :=
  (c =? 9) || (c =? 10) || (c =? 13) || (c =? 32).

Fixpoint skip_ws (s : jsstring) : jsstring :=
  match s with
  | c :: s' => if is_ws c then skip_ws s' else s
  | [] => []
  end.

Definition is_digit (c : Z) : bool := (48 <=? c) && (c <=? 57).

Definition hex_digit (c : Z) : option Z :=
  if is_digit c then Some (c - 48)
  else if (97 <=? c) && (c <=? 102) then Some (c - 87)
  else if (65 <=? c) && (c <=? 70) then Some (c - 55)
  else None.

(** The character an escape letter stands for. *)
Definition escape (c : Z) : option Z :=
  if c =? 34 then Some 34          (* quotation mark *)
  else if c =? 92 then Some 92     (* reverse solidus *)
  else if c =? 47 then Some 47     (* solidus *)
  else if c =? 98 then Some 8      (* b: backspace *)
  else if c =? 102 then Some 12    (* f: form feed *)
  else if c =? 110 then Some 10    (* n: line feed *)
  else if c =? 114 then Some 13    (* r: carriage return *)
  else if c =? 116 then Some 9     (* t: tab *)
  else None.

(** The characters of a string literal after its opening quote, up to
    the closing one; [acc] holds the characters read, last first. *)
Fixpoint chars (s : jsstring) (acc : jsstring) : option (jsstring * jsstring) :=
  match s with
  | [] => None
  | c :: r =>
      if c =? 34 then Some (rev acc, r)
      else if c =? 92 then
        match r with
        | [] => None
        | e :: r1 =>
            if e =? 117 then
              match r1 with
              | h1 :: h2 :: h3 :: h4 :: r2 =>
                  match hex_digit h1, hex_digit h2, hex_digit h3, hex_digit h4 with
                  | Some a, Some b, Some c', Some d =>
                      chars r2 (((a * 16 + b) * 16 + c') * 16 + d :: acc)
                  | _, _, _, _ => None
                  end
              | _ => None
              end
            else
              match escape e with
              | Some x => chars r1 (x :: acc)
              | None => None
              end
        end
      else if c <? 32 then None
      else chars r (c :: acc)
  end.

(** A run of digits: its value continued from [acc], the number of
    digits, and what follows. *)
Fixpoint digits (s : jsstring) (acc : Z) (n : Z) : Z * Z * jsstring :=
  match s with
  | c :: r => if is_digit c then digits r (acc * 10 + (c - 48)) (n + 1) else (acc, n, s)
  | [] => (acc, n, [])
  end.

(** Trailing zeros of the mantissa move into the exponent. *)
Fixpoint normalize (fuel : nat) (m e : Z) : Z * Z :=
  match fuel with
  | O => (m, e)
  | S f => if (m mod 10 =? 0) && negb (m =? 0) then normalize f (m / 10) (e + 1) else (m, e)
  end.

Definition make_number (negative : bool) (m e : Z) (ndigits : Z) : value :=
  if m =? 0 then Number (mkNumber negative 0 0)
  else let '(m', e') := normalize (Z.to_nat ndigits) m e in
       Number (mkNumber negative m' e').

(** The exponent part, if any, after the integer and fraction digits. *)
Definition exponent (negative : bool) (m : Z) (nd : Z) (fd : Z) (s : jsstring) : result :=
  match s with
  | c :: r =>
      if (c =? 101) || (c =? 69) then
        let '(sign, r1) :=
          match r with
          | x :: r' => if x =? 45 then (-1, r')
                       else if x =? 43 then (1, r') else (1, r)
          | [] => (1, r)
          end in
        let '(e, n, r2) := digits r1 0 0 in
        if n =? 0 then SyntaxError
        else Ok (make_number negative m (sign * e - fd) nd) r2
      else Ok (make_number negative m (- fd) nd) s
  | [] => Ok (make_number negative m (- fd) nd) s
  end.

(** The fraction part, if any, after the integer digits. *)
Definition fraction (negative : bool) (m : Z) (nd : Z) (s : jsstring) : result :=
  match s with
  | c :: r =>
      if c =? 46 then
        let '(m', n, r1) := digits r m 0 in
        if n =? 0 then SyntaxError else exponent negative m' (nd + n) n r1
      else exponent negative m nd 0 s
  | [] => exponent negative m nd 0 s
  end.

(** A number literal whose sign has been read: [0], or a nonzero digit
    and more digits, then fraction and exponent. *)
Definition unsigned_number (negative : bool) (s : jsstring) : result :=
  match s with
  | c :: r =>
      if c =? 48 then fraction negative 0 1 r
      else if is_digit c then
        let '(m, n, r1) := digits s 0 0 in fraction negative m n r1
      else SyntaxError
  | [] => SyntaxError
  end.

Definition literal (s : jsstring) (word : jsstring) (v : value) : result :=
  if startsWith s word then Ok v (skipn (length word) s) else SyntaxError.

(** Recursive descent over the JSON grammar. Each call uses one unit of
    fuel; [parse] provides enough of it ([parse_value_fuel]). *)
Fixpoint parse_value (fuel : nat) (s : jsstring) : result :=
  match fuel with
  | O => OutOfFuel
  | S f =>
      match skip_ws s with
      | [] => SyntaxError
      | c :: r =>
          if c =? 123 then                       (* { *)
            match skip_ws r with
            | c' :: r' =>
                if c' =? 125 then Ok (Object []) r' else parse_members f r []
            | [] => SyntaxError
            end
          else if c =? 91 then                   (* [ *)
            match skip_ws r with
            | c' :: r' =>
                if c' =? 93 then Ok (Array []) r' else parse_elements f r []
            | [] => SyntaxError
            end
          else if c =? 34 then                   (* string *)
            match chars r [] with
            | Some (str, r') => Ok (Str str) r'
            | None => SyntaxError
            end
          else if c =? 45 then unsigned_number true r
          else if is_digit c then unsigned_number false (c :: r)
          else if c =? 116 then literal (c :: r) (js "true") (Bool true)
          else if c =? 102 then literal (c :: r) (js "false") (Bool false)
          else if c =? 110 then literal (c :: r) (js "null") Null
          else SyntaxError
      end
  end

(** The elements of an array after [[] or [,]; [acc] holds the elements
    read, last first. *)
with parse_elements (fuel : nat) (s : jsstring) (acc : list value) : result :=
  match fuel with
  | O => OutOfFuel
  | S f =>
      match parse_value f s with
      | Ok v r =>
          match skip_ws r with
          | c :: r' =>
              if c =? 44 then parse_elements f r' (v :: acc)
              else if c =? 93 then Ok (Array (rev (v :: acc))) r'
              else SyntaxError
          | [] => SyntaxError
          end
      | SyntaxError => SyntaxError
      | OutOfFuel => OutOfFuel
      end
  end

(** The members of an object after [{] or [,]; [acc] holds the
    properties defined so far. *)
with parse_members (fuel : nat) (s : jsstring) (acc : list (jsstring * value)) : result :=
  match fuel with
  | O => OutOfFuel
  | S f =>
      match skip_ws s with
      | q :: r =>
          if q =? 34 then
            match chars r [] with
            | Some (key, r1) =>
                match skip_ws r1 with
                | colon :: r2 =>
                    if colon =? 58 then
                      match parse_value f r2 with
                      | Ok v r3 =>
                          match skip_ws r3 with
                          | c :: r4 =>
                              if c =? 44 then parse_members f r4 (define acc key v)
                              else if c =? 125 then Ok (Object (define acc key v)) r4
                              else SyntaxError
                          | [] => SyntaxError
                          end
                      | SyntaxError => SyntaxError
                      | OutOfFuel => OutOfFuel
                      end
                    else SyntaxError
                | [] => SyntaxError
                end
            | None => SyntaxError
            end
          else SyntaxError
      | [] => SyntaxError
      end
  end.

(** [JSON.parse(text)]: one value, white space around it, nothing else.
    [None] stands for the SyntaxError the call throws. *)
Definition parse (text : jsstring) : option value :=
  match parse_value (2 * length text + 1) text with
  | Ok v rest => match skip_ws rest with [] => Some v | _ :: _ => None end
  | SyntaxError => None
  | OutOfFuel => None
  end.

End JSON.

(* ================================================================== *)
(** * Regular expressions: a backtracking matcher *)
(* ================================================================== *)

Module RegExp.

(** The pattern language [chatApi.js] needs: characters, classes, greedy
    repetition of a class, sequence, alternation and one capturing
    group. A class is given by its members, which for the classes used
    here are closed under change of case. *)
Inductive t :=
| Empty
| Char (c : Z)
| Class (p : Z -> bool)
| Star (p : Z -> bool)
| Seq (a b : t)
| Alt (a b : t)
| Group (a : t).

(** Canonicalize with the [i] flag and without [u]: a character is
    compared through its upper case. The pattern's own characters are
    ASCII, and the standard never lets a character from outside ASCII
    canonicalize into ASCII, so only the ASCII letters need folding. *)
Definition canonicalize (c : Z) : Z :=
  if (97 <=? c) && (c <=? 122) then c - 32 else c.

(** A match state: the input still to read and the text of group 1. *)
Definition state := (jsstring * option jsstring)%type.

(** Greedy [p*]: as many characters as possible, then one fewer
    whenever the continuation fails. *)
Fixpoint star (p : Z -> bool) (k : jsstring -> option state) (s : jsstring)
  : option state :=
  match s with
  | x :: s' =>
      if p x then
        match star p k s' with
        | Some r => Some r
        | None => k s
        end
      else k s
  | [] => k s
  end.

(** The matcher of a pattern, in continuation-passing style as the
    standard defines it: [k] matches what follows the pattern. *)
Fixpoint matcher (r : t) (s : jsstring) (cap : option jsstring)
         (k : jsstring -> option jsstring -> option state) : option state :=
  match r with
  | Empty => k s cap
  | Char c =>
      match s with
      | x :: s' => if canonicalize x =? canonicalize c then k s' cap else None
      | [] => None
      end
  | Class p =>
      match s with
      | x :: s' => if p x then k s' cap else None
      | [] => None
      end
  | Star p => star p (fun s' => k s' cap) s
  | Seq a b => matcher a s cap (fun s' cap' => matcher b s' cap' k)
  | Alt a b =>
      match matcher a s cap k with
      | Some res => Some res
      | None => matcher b s cap k
      end
  | Group a =>
      matcher a s cap
              (fun s' _ => k s' (Some (firstn (length s - length s') s)))
  end.

(** A match attempt at the start of [s]. *)
Definition match_here (r : t) (s : jsstring) : option state :=
  matcher r s None (fun s' cap => Some (s', cap)).

(** [s.match(r)] for a pattern without the [g] flag: the match at the
    least index that has one, [None] for [null]. The result carries the
    input after the match and the text of group 1. *)
Fixpoint exec (r : t) (s : jsstring) : option state :=
  match match_here r s with
  | Some res => Some res
  | None =>
      match s with
      | [] => None
      | _ :: s' => exec r s'
      end
  end.

(** A sequence of literal characters. *)
Fixpoint word (w : jsstring) : t :=
  match w with
  | [] => Empty
  | c :: w' => Seq (Char c) (word w')
  end.

End RegExp.

(* ================================================================== *)
(** * fetch and asynchronous programs *)
(* ================================================================== *)

(** A thrown value: an Error object with its name and message. *)
Record Exn := mkExn { exn_name : jsstring; message : jsstring }.

(** [new Error(message)] *)
Definition new_Error (msg : jsstring) : Exn := mkExn (js "Error") msg.

Inductive Outcome (A : Type) :=
| Return (a : A)
| Throw (e : Exn).
Arguments Return {A} a.
Arguments Throw {A} e.

Record File := mkFile { file_name : jsstring; file_bytes : list Z }.

Inductive RequestBody :=
| NoBody
| TextBody (text : jsstring)
| JsonBody (payload : value)                     (* JSON.stringify(payload) *)
| FormBody (fields : list (jsstring * File)).    (* a FormData *)

Record Request := mkRequest {
  url : jsstring;
  method : jsstring;
  headers : list (jsstring * jsstring);
  body : RequestBody
}.

(** The body of a response as its reader delivers it: some chunks, then
    either the end of the stream or a failure of the transport. *)
Record BodyStream := mkBody {
  chunks : list (list Z);
  failure : option Exn
}.

(** A response: [res.status] and [res.body] ([None] for [null]). *)
Record Response := mkResponse {
  status : Z;
  res_body : option BodyStream
}.

(** [res.ok] *)
Definition ok (res : Response) : bool :=
  (200 <=? status res) && (status res <=? 299).

(** How the promise of [fetch] settles. *)
Inductive FetchResult :=
| Resolved (res : Response)
| Rejected (e : Exn).

(** An asynchronous function of the client: it returns, throws, or issues
    a request and goes on with the answer. *)
Inductive Prog (A : Type) :=
| Ret (a : A)
| Raise (e : Exn)
| DoFetch (req : Request) (k : FetchResult -> Prog A).
Arguments Ret {A} a.
Arguments Raise {A} e.
Arguments DoFetch {A} req k.

Fixpoint bind {A B : Type} (p : Prog A) (f : A -> Prog B) : Prog B :=
  match p with
  | Ret a => f a
  | Raise e => Raise e
  | DoFetch req k => DoFetch req (fun r => bind (k r) f)
  end.

Notation "x <- p ;; q" := (bind p (fun x => q))
  (at level 61, p at next level, right associativity).

(** [try { p } catch (err) { h err }] *)
Fixpoint try_catch {A : Type} (p : Prog A) (h : Exn -> Prog A) : Prog A :=
  match p with
  | Ret a => Ret a
  | Raise e => h e
  | DoFetch req k => DoFetch req (fun r => try_catch (k r) h)
  end.

(** [await fetch(url, init)] *)
Definition fetch (req : Request) : Prog Response :=
  DoFetch req (fun r =>
    match r with
    | Resolved res => Ret res
    | Rejected e => Raise e
    end).

(** A settled promise as a program. *)
Definition await {A : Type} (o : Outcome A) : Prog A :=
  match o with
  | Return a => Ret a
  | Throw e => Raise e
  end.

(** The world answers every request. *)
Definition World := Request -> FetchResult.

(** Running a program: the requests issued, in order, and the outcome. *)
Fixpoint run {A : Type} (w : World) (p : Prog A) : list Request * Outcome A :=
  match p with
  | Ret a => ([], Return a)
  | Raise e => ([], Throw e)
  | DoFetch req k =>
      let '(trace, o) := run w (k (w req)) in (req :: trace, o)
  end.

(** Reading a whole body: all chunks, unless the transport fails. An
    absent body reads as empty. *)
Definition read_all (res : Response) : Outcome (list Z) :=
  match res_body res with
  | None => Return []
  | Some b =>
      match failure b with
      | Some e => Throw e
      | None => Return (concat (chunks b))
      end
  end.

(** [await res.text()] *)
Definition Response_text (res : Response) : Outcome jsstring :=
  match read_all res with
  | Return bytes => Return (TextDecoder.decode bytes)
  | Throw e => Throw e
  end.

(** [await res.json()] *)
Definition Response_json (res : Response) : Outcome value :=
  match read_all res with
  | Return bytes =>
      match JSON.parse (TextDecoder.decode bytes) with
      | Some v => Return v
      | None => Throw (mkExn (js "SyntaxError") (js "Unexpected token"))
      end
  | Throw e => Throw e
  end.

(* ================================================================== *)
(** * src/api/chatApi.js *)
(* ================================================================== *)

Definition BASE_URL : jsstring := js "https://carpulse-backend-eo6t.onrender.com".

Definition AGENT_NAME : jsstring := js "agent".

(** [safeJson(res)]: the parsed body, [null] for a 204 and whenever
    [res.json()] rejects. *)
Definition safeJson (res : Response) : value :=
  if status res =? 204 then Null
  else
    match Response_json res with
    | Return v => v
    | Throw _ => Null
    end.

Definition sessions_url : jsstring :=
  BASE_URL ++ js "/apps/" ++ AGENT_NAME ++ js "/users/user/sessions".

Definition session_url (id : jsstring) : jsstring :=
  sessions_url ++ js "/" ++ id.

Definition listSessions_request : Request :=
  mkRequest sessions_url (js "GET") [] NoBody.

Definition listSessions : Prog value :=
  try_catch
    (res <- fetch listSessions_request ;;
     if negb (ok res) then Ret (Array [])
     else Ret (or_else (safeJson res) (Array [])))
    (fun err => Ret (Array [])).

(** [await res.text().catch(() => "")] *)
Definition text_or_empty (res : Response) : jsstring :=
  match Response_text res with
  | Return t => t
  | Throw _ => []
  end.

(** [new Error(text || `HTTP ${res.status}`)] *)
Definition http_error (res : Response) : Exn :=
  let text := text_or_empty res in
  new_Error (match text with
             | [] => js "HTTP " ++ Number_toString (status res)
             | _ :: _ => text
             end).

Definition createSession_request : Request :=
  mkRequest sessions_url (js "POST")
            [(js "Content-Type", js "application/json")] (TextBody (js "{}")).

Definition createSession : Prog value :=
  res <- fetch createSession_request ;;
  if negb (ok res) then Raise (http_error res)
  else Ret (safeJson res).

Definition deleteSession_request (id : jsstring) : Request :=
  mkRequest (session_url id) (js "DELETE") [] NoBody.

Definition deleteSession (id : jsstring) : Prog value :=
  res <- fetch (deleteSession_request id) ;;
  if negb (ok res) then Raise (http_error res)
  else Ret Undefined.

Definition getSession_request (id : jsstring) : Request :=
  mkRequest (session_url id) (js "GET") [] NoBody.

Definition getSession (id : jsstring) : Prog value :=
  res <- fetch (getSession_request id) ;;
  if negb (ok res) then Ret Null
  else Ret (safeJson res).

(** The request of [uploadFile] for a form. *)
Definition uploadFile_request (formData : list (jsstring * File)) : Request :=
  mkRequest (BASE_URL ++ js "/vehicle_service_logs/api/files/process-file")
            (js "POST") [] (FormBody formData).

Definition uploadFile (file : File) : Prog value :=
  let formData := [(js "file", file)] in
  res <- fetch (uploadFile_request formData) ;;
  if negb (ok res) then Raise (http_error res)
  else Ret (safeJson res).

(** ** sendMessageStream *)

(** The argument object [{ sessionId, text, inlineData = null }]; a
    property left out is [None], and [inlineData] left out is [Null]. *)
Record Message := mkMessage {
  sessionId : option jsstring;
  text : option jsstring;
  inlineData : value
}.

Definition of_string (o : option jsstring) : value :=
  match o with
  | Some s => Str s
  | None => Undefined
  end.

Definition is_token (c : Z) : bool :=
  ((97 <=? c) && (c <=? 122)) || ((65 <=? c) && (c <=? 90))
  || ((48 <=? c) && (c <=? 57)) || (c =? 45).

Definition is_separator (c : Z) : bool := (c =? 58) || is_white_space c.

(** [(?:vehicle\s*id|id)] *)
Definition vehicle_label : RegExp.t :=
  RegExp.Alt
    (RegExp.Seq (RegExp.word (js "vehicle"))
       (RegExp.Seq (RegExp.Star is_white_space) (RegExp.word (js "id"))))
    (RegExp.word (js "id")).

(** [[:\s]*([a-zA-Z0-9-]+)] *)
Definition vehicle_token : RegExp.t :=
  RegExp.Seq (RegExp.Star is_separator)
    (RegExp.Group (RegExp.Seq (RegExp.Class is_token) (RegExp.Star is_token))).

(** [/(?:vehicle\s*id|id)[:\s]*([a-zA-Z0-9-]+)/i] *)
Definition vehicleIdPattern : RegExp.t :=
  RegExp.Seq vehicle_label vehicle_token.

(** [text ? text.match(...) : null] *)
Definition vehicleIdMatch (text : option jsstring) : option RegExp.state :=
  if truthy (of_string text)
  then match text with
       | Some t => RegExp.exec vehicleIdPattern t
       | None => None
       end
  else None.

(** [vehicleIdMatch ? { vehicle_id: vehicleIdMatch[1] } : null] *)
Definition stateDelta (text : option jsstring) : value :=
  match vehicleIdMatch text with
  | Some (_, group1) => Object [(js "vehicle_id", of_string group1)]
  | None => Null
  end.

Definition parts (m : Message) : list value :=
  (if truthy (of_string (text m))
      && truthy (of_string (option_map trim (text m)))
   then [Object [(js "text", of_string (text m))]] else [])
  ++ (if truthy (inlineData m)
      then [Object [(js "inlineData", inlineData m)]] else []).

Definition payload (m : Message) : value :=
  Object [(js "appName", Str AGENT_NAME);
          (js "newMessage",
           Object [(js "role", Str (js "user")); (js "parts", Array (parts m))]);
          (js "sessionId", of_string (sessionId m));
          (js "stateDelta", stateDelta (text m));
          (js "streaming", Bool false);
          (js "userId", Str (js "user"))].

Definition run_sse (m : Message) : Request :=
  mkRequest (BASE_URL ++ js "/run_sse") (js "POST")
    [(js "Content-Type", js "application/json");
     (js "Accept", js "text/event-stream")]
    (JsonBody (payload m)).

(** [line.startsWith("data:") ? line.slice(5).trim() : line] for a
    trimmed line. *)
Definition jsonPart (line : jsstring) : jsstring :=
  if startsWith line (js "data:") then trim (slice_from line 5) else line.

(** The body of the inner loop for one line cut out of the buffer: a line
    that trims to nothing is skipped, and the SyntaxError of [JSON.parse]
    is caught and ignored. *)
Definition process_line (line : jsstring) (contents : list value) : list value :=
  let line := trim line in
  match line with
  | [] => contents
  | _ :: _ =>
      match JSON.parse (jsonPart line) with
      | Some parsed =>
          if truthy (get_content parsed)
          then contents ++ [get_content parsed]
          else contents
      | None => contents
      end
  end.

(** [while ((newlineIndex = buffer.indexOf("\n")) !== -1) { ... }]; [None]
    when the fuel ends before the loop does. *)
Fixpoint drain_fuel (fuel : nat) (buffer : jsstring) (contents : list value)
  : option (jsstring * list value) :=
  let newlineIndex := indexOf buffer LF in
  if newlineIndex =? -1 then Some (buffer, contents)
  else
    match fuel with
    | O => None
    | S f =>
        let line := slice buffer 0 newlineIndex in
        let buffer := slice_from buffer (newlineIndex + 1) in
        drain_fuel f buffer (process_line line contents)
    end.

(** The inner loop. Every round shortens the buffer, so its length is
    fuel enough ([drain_fuel_total]) and the default is never taken. *)
Definition drain (buffer : jsstring) (contents : list value)
  : jsstring * list value :=
  match drain_fuel (length buffer) buffer contents with
  | Some r => r
  | None => (buffer, contents)
  end.

(** The variables of the reading loop. *)
Record Reading := mkReading {
  decoder : TextDecoder.t;
  buffer : jsstring;
  contents : list value
}.

Definition start : Reading := mkReading TextDecoder.create [] [].

(** One round of the outer loop on a chunk the reader delivered. *)
Definition read_chunk (st : Reading) (chunk : list Z) : Reading :=
  let '(d, decoded) := TextDecoder.decode_stream (decoder st) chunk in
  let '(b, c) := drain (buffer st ++ decoded) (contents st) in
  mkReading d b c.

(** The outer loop over the chunks of a stream that ends. *)
Definition read_loop (chunks : list (list Z)) : Reading :=
  fold_left read_chunk chunks start.

(** The outer loop on a body: the contents when the reader reports the
    end of the stream, the reader's error when [read()] rejects. *)
Definition read_body (b : BodyStream) : Outcome (list value) :=
  let st := read_loop (chunks b) in
  match failure b with
  | None => Return (contents st)
  | Some e => Throw e
  end.

Definition sendMessageStream (m : Message) : Prog (list value) :=
  if negb (truthy (of_string (sessionId m)))
  then Raise (new_Error (js "No active session id"))
  else if negb (truthy (of_string (text m))) && negb (truthy (inlineData m))
  then Raise (new_Error (js "Message empty"))
  else
    res <- fetch (run_sse m) ;;
    if negb (ok res) then Raise (http_error res)
    else
      match res_body res with
      | None => Raise (new_Error (js "Streaming not supported in this browser."))
      | Some b => await (read_body b)
      end.

(* ================================================================== *)
(** * The vocabulary of the properties *)
(* ================================================================== *)

(** The text a stream of bytes decodes to, chunk boundaries aside. *)
Definition stream_text (chunks : list (list Z)) : jsstring :=
  snd (TextDecoder.decode_stream TextDecoder.create (concat chunks)).

(** The state of the loop after the given bytes, had they come as one
    chunk. *)
Definition reading_of (bytes : list Z) : Reading :=
  read_chunk start bytes.

(** Text made of whole lines: empty, or ending in a newline. *)
Definition complete (lines : jsstring) : Prop :=
  lines = [] \/ exists l, lines = l ++ [LF].

(** The two records of the example stream, as bytes. *)
Definition record_a : list Z := jsq "data: {'content':'a'}" ++ [LF].
Definition record_b : list Z := jsq "data: {'content':'b'}" ++ [LF].

(** Whether an object has an own property of the given name. *)
Definition has_property (key : jsstring) (v : value) : bool :=
  match v with
  | Object props => existsb (fun kv => jsstring_eqb (fst kv) key) props
  | _ => false
  end.

(** A world that answers every request with a 500 and an HTML body. *)
Definition server_error : World :=
  fun _ => Resolved (mkResponse 500 (Some (mkBody [js "<html>"; js "oops"] None))).

(** [sub] occurs in [s]. *)
Definition contains (s sub : jsstring) : Prop :=
  exists pre post, s = pre ++ sub ++ post.

(** What the error of a failed request carries: the text of the body when
    there is some, and else [HTTP] followed by the status in decimal. *)
Definition carries_text_or_status (res : Response) (e : Exn) : Prop :=
  exn_name e = js "Error"
  /\ match Response_text res with
     | Return (c :: t) => message e = c :: t
     | Return [] | Throw _ =>
         message e = js "HTTP " ++ Number_toString (status res)
         /\ contains (message e) (Number_toString (status res))
     end.

(** A world that answers every request with a 404 and an empty body. *)
Definition not_found : World :=
  fun _ => Resolved (mkResponse 404 (Some (mkBody [] None))).

(** A world that answers every request with a 200 and the given body. *)
Definition answers (body : jsstring) : World :=
  fun _ => Resolved (mkResponse 200 (Some (mkBody [body] None))).

(** The longest prefix of characters in [p]. *)
Fixpoint take_while (p : Z -> bool) (s : jsstring) : jsstring :=
  match s with
  | x :: s' => if p x then x :: take_while p s' else []
  | [] => []
  end.

(** What follows the longest prefix of characters in [p]. *)
Fixpoint drop_while (p : Z -> bool) (s : jsstring) : jsstring :=
  match s with
  | x :: s' => if p x then drop_while p s' else s
  | [] => []
  end.

(** The prefix of [s] that is [w] up to case, removed. *)
Fixpoint strip_word (w s : jsstring) : option jsstring :=
  match w, s with
  | [], _ => Some s
  | c :: w', x :: s' =>
      if RegExp.canonicalize x =? RegExp.canonicalize c
      then strip_word w' s' else None
  | _ :: _, [] => None
  end.

(** A token at the start of [s]: the longest run of token characters, at
    least one, as group 1, and the input after it. *)
Definition token_run (s : jsstring) : option RegExp.state :=
  match s with
  | c :: post =>
      if is_token c
      then Some (drop_while is_token post, Some (c :: take_while is_token post))
      else None
  | [] => None
  end.

(** The pattern at the start of [s], without backtracking: the label
    [vehicle], white space, [id] or else the label [id]; then colons and
    white space; then a token. *)
Definition scan_here (s : jsstring) : option RegExp.state :=
  match
    match strip_word (js "vehicle") s with
    | Some r =>
        match strip_word (js "id") (drop_while is_white_space r) with
        | Some r' => token_run (drop_while is_separator r')
        | None => None
        end
    | None => None
    end
  with
  | Some res => Some res
  | None =>
      match strip_word (js "id") s with
      | Some r => token_run (drop_while is_separator r)
      | None => None
      end
  end.

(** An id-like token: the letters [id] in either case, then any number of
    colons and white space, then a letter, a digit or a hyphen. *)
Definition id_like (t : jsstring) : Prop :=
  exists pre i d sep c post,
    t = pre ++ i :: d :: sep ++ c :: post
    /\ RegExp.canonicalize i = 73
    /\ RegExp.canonicalize d = 68
    /\ Forall (fun x => is_separator x = true) sep
    /\ is_token c = true.

(** The message of the example: the word [slide] and nothing else. *)
Definition slide : Message := mkMessage (Some (js "s1")) (Some (js "slide")) Null.

Definition video : Message := mkMessage (Some (js "s1")) (Some (js "video")) Null.

(** The lines of a text: those a newline ends, in order and without
    their newline, and the text after the last newline. *)
Fixpoint split_lines (s : jsstring) : list jsstring * jsstring :=
  match s with
  | [] => ([], [])
  | c :: s' =>
      let '(ls, rest) := split_lines s' in
      if c =? LF then ([] :: ls, rest)
      else
        match ls with
        | [] => ([], c :: rest)
        | l :: ls' => ((c :: l) :: ls', rest)
        end
  end.

(** What one line contributes: nothing or one fragment. *)
Definition fragment_of (line : jsstring) : list value := process_line line [].

(** The characters a JSON text can start with: a brace, a bracket, a
    quotation mark, a minus sign, a digit, and the first letters of
    [true], [false] and [null]. *)
Definition starts_json (c : Z) : bool :=
  (c =? 123) || (c =? 91) || (c =? 34) || (c =? 45) || JSON.is_digit c
  || (c =? 116) || (c =? 102) || (c =? 110).

(** A world whose stream breaks after the first record. *)
Definition broken_stream : World :=
  fun _ => Resolved
             (mkResponse 200
                (Some (mkBody [record_a]
                         (Some (mkExn (js "TypeError") (js "network error")))))).

(** A world without a network. *)
Definition offline : World :=
  fun _ => Rejected (mkExn (js "TypeError") (js "Failed to fetch")).

(** [/id[:\s]*([a-zA-Z0-9-]+)/i]: the vehicle id pattern without its
    first alternative. *)
Definition id_pattern : RegExp.t :=
  RegExp.Seq (RegExp.word (js "id")) vehicle_token.

(** The label [id], then colons and white space, then a token, at the
    start of [s]. *)
Definition scan_id (s : jsstring) : option RegExp.state :=
  match strip_word (js "id") s with
  | Some r => token_run (drop_while is_separator r)
  | None => None
  end.

(** The states the decoder can be in: between characters, or inside a
    sequence whose continuation bytes are bounded as UTF-8 has them, with
    the bits read so far; these are zero only after the lead bytes E0 and
    F0, whose next byte has a raised lower bound. *)
Definition decoder_ok (d : TextDecoder.t) : Prop :=
  TextDecoder.bytes_needed d = 0
  \/ (128 <= TextDecoder.lower_boundary d
      /\ TextDecoder.upper_boundary d <= 191
      /\ 0 <= TextDecoder.code_point d
      /\ (TextDecoder.code_point d = 0 ->
          144 <= TextDecoder.lower_boundary d
          /\ TextDecoder.bytes_seen d + 1 <> TextDecoder.bytes_needed d)).

(** The number of newlines in a text, or of bytes 0A in a stream. *)
Definition newlines (s : list Z) : nat := count_occ Z.eq_dec s LF.

(** The text of some lines, each ended by a newline. *)
Definition lines_text (lines : list jsstring) : jsstring :=
  flat_map (fun l => l ++ [LF]) lines.

(** A line that is a valid record with the fragment [v]: it holds no
    newline, its candidate text parses as JSON, and the [content] of the
    value parsed is truthy and is [v]. *)
Definition record_of (line : jsstring) (v : value) : Prop :=
  ~ In LF line
  /\ exists parsed,
      JSON.parse (jsonPart (trim line)) = Some parsed
      /\ truthy (get_content parsed) = true
      /\ v = get_content parsed.

(* ================================================================== *)
(** * Evaluations *)
(* ================================================================== *)

Example js_sample : js "id:" = [105; 100; 58].
Proof. reflexivity. Qed.

Example jsq_sample : jsq "{'a'}" = [123; 34; 97; 34; 125].
Proof. reflexivity. Qed.

Example trim_sample : trim (js "  data: x ") = js "data: x".
Proof. reflexivity. Qed.

Example indexOf_sample : indexOf (js "ab" ++ [LF] ++ js "c") LF = 2.
Proof. reflexivity. Qed.

Example slice_sample : slice (js "hello") 1 3 = js "el".
Proof. reflexivity. Qed.

Example Number_toString_sample :
  Number_toString 404 = js "404" /\ Number_toString 0 = js "0".
Proof. split; reflexivity. Qed.

(** U+00E9 (C3 A9), the euro sign (E2 82 AC) and U+1F600 (F0 9F 98 80). *)
Example utf8_sample :
  TextDecoder.decode [195; 169; 226; 130; 172; 240; 159; 152; 128]
  = [233; 8364; 55357; 56832].
Proof. reflexivity. Qed.

Example utf8_bom_sample : TextDecoder.decode [239; 187; 191; 97] = [97].
Proof. reflexivity. Qed.

Example utf8_truncated_sample : TextDecoder.decode [97; 226; 130] = [97; 65533].
Proof. reflexivity. Qed.

Example parse_record :
  JSON.parse (jsq "{'content':'a'}") = Some (Object [(js "content", Str (js "a"))]).
Proof. reflexivity. Qed.

Example parse_not_json : JSON.parse (js "not-json") = None.
Proof. reflexivity. Qed.

Example parse_nested :
  JSON.parse (jsq " { 'a' : [1, -2.50e3, true, null, 'xA\n'], 'a': {} } ")
  = Some (Object [(js "a", Object [])]).
Proof. reflexivity. Qed.

Example parse_array :
  JSON.parse (jsq "[1, -2.50e3, 0.0, 'xA\n', []]")
  = Some (Array [Number (mkNumber false 1 0); Number (mkNumber true 25 2);
                 Number (mkNumber false 0 0); Str [120; 65; 10]; Array []]).
Proof. reflexivity. Qed.

Example parse_trailing_comma : JSON.parse (jsq "[1,]") = None.
Proof. reflexivity. Qed.

Example parse_leading_zero : JSON.parse (js "01") = None.
Proof. reflexivity. Qed.

Example parse_trailing_text : JSON.parse (jsq "{} x") = None.
Proof. reflexivity. Qed.

Example truthy_underflow :
  option_map truthy (JSON.parse (js "1e-400")) = Some false
  /\ option_map truthy (JSON.parse (js "5e-324")) = Some true.
Proof. split; vm_compute; reflexivity. Qed.

(* ================================================================== *)
(** * Strings: searching and slicing *)
(* ================================================================== *)

Section Slicing.

Variable c : Z.

Lemma indexOf_range (s : jsstring) :
  indexOf s c = -1 \/ 0 <= indexOf s c < Z.of_nat (length s).
Proof.
  induction s as [|x s IH]; simpl; [now left|].
  destruct (x =? c); [right; lia|].
  destruct (indexOf s c =? -1) eqn:E; [now left|].
  apply Z.eqb_neq in E. right. lia.
Qed.

Lemma indexOf_absent (s : jsstring) : ~ In c s -> indexOf s c = -1.
Proof.
  induction s as [|x s IH]; simpl; intros H; [reflexivity|].
  destruct (Z.eqb_spec x c) as [->|_]; [exfalso; auto|].
  rewrite IH by auto. reflexivity.
Qed.

Lemma indexOf_first (l r : jsstring) :
  ~ In c l -> indexOf (l ++ c :: r) c = Z.of_nat (length l).
Proof.
  induction l as [|x l IH]; simpl; intros H.
  - now rewrite Z.eqb_refl.
  - destruct (Z.eqb_spec x c) as [->|_]; [exfalso; auto|].
    rewrite IH by auto.
    destruct (Z.eqb_spec (Z.of_nat (length l)) (-1)); lia.
Qed.

(** A string either lacks [c] or splits at its first occurrence. *)
Lemma first_occurrence (s : jsstring) :
  ~ In c s \/ exists l r, s = l ++ c :: r /\ ~ In c l.
Proof.
  induction s as [|x s [IH|(l & r & -> & Hl)]].
  - left. auto.
  - destruct (Z.eq_dec x c) as [->|Hx].
    + right. exists [], s. auto.
    + left. simpl. intuition.
  - right. destruct (Z.eq_dec x c) as [->|Hx].
    + exists [], (l ++ c :: r). auto.
    + exists (x :: l), r. simpl. intuition.
Qed.

End Slicing.

Lemma slice_prefix (l r : jsstring) (x : Z) :
  slice (l ++ x :: r) 0 (Z.of_nat (length l)) = l.
Proof.
  unfold slice, slice_index. rewrite length_app. simpl length.
  destruct (0 <? 0) eqn:E0; [discriminate|].
  destruct (Z.of_nat (length l) <? 0) eqn:E1; [apply Z.ltb_lt in E1; lia|].
  repeat rewrite Z.min_l by lia.
  simpl skipn. rewrite Z.sub_0_r, Nat2Z.id.
  rewrite firstn_app, firstn_all, Nat.sub_diag. simpl. apply app_nil_r.
Qed.

Lemma slice_suffix (l r : jsstring) (x : Z) :
  slice_from (l ++ x :: r) (Z.of_nat (length l) + 1) = r.
Proof.
  unfold slice_from, slice, slice_index. rewrite length_app. simpl length.
  destruct (Z.of_nat (length l) + 1 <? 0) eqn:E1; [apply Z.ltb_lt in E1; lia|].
  destruct (Z.of_nat (length l + S (length r)) <? 0) eqn:E2;
    [apply Z.ltb_lt in E2; lia|].
  repeat rewrite Z.min_l by lia.
  replace (Z.to_nat (Z.of_nat (length l) + 1)) with (length l + 1)%nat by lia.
  replace (l ++ x :: r) with ((l ++ [x]) ++ r) by (rewrite <- app_assoc; reflexivity).
  rewrite skipn_app.
  rewrite skipn_all2 by (rewrite length_app; simpl; lia).
  rewrite length_app. simpl length. rewrite Nat.sub_diag. simpl.
  apply firstn_all2. lia.
Qed.

(* ================================================================== *)
(** * The inner loop *)
(* ================================================================== *)

Lemma drain_fuel_done (fuel : nat) (b : jsstring) (c : list value) :
  ~ In LF b -> drain_fuel fuel b c = Some (b, c).
Proof.
  intros H. destruct fuel; simpl; rewrite (indexOf_absent LF b H); reflexivity.
Qed.

Lemma drain_fuel_line (fuel : nat) (l r : jsstring) (c : list value) :
  ~ In LF l ->
  drain_fuel (S fuel) (l ++ LF :: r) c = drain_fuel fuel r (process_line l c).
Proof.
  intros H. simpl. rewrite (indexOf_first LF l r H).
  destruct (Z.eqb_spec (Z.of_nat (length l)) (-1)) as [E|_]; [lia|].
  rewrite slice_prefix, slice_suffix. reflexivity.
Qed.

(** Fuel beyond the length of the buffer changes nothing. *)
Lemma drain_fuel_enough (f f' : nat) :
  forall (b : jsstring) (c : list value),
    (length b <= f)%nat -> (length b <= f')%nat ->
    drain_fuel f b c = drain_fuel f' b c.
Proof.
  revert f'. induction f as [|f IH]; intros f' b c Hf Hf'.
  - destruct b; [|simpl in Hf; lia].
    rewrite !drain_fuel_done by (simpl; auto). reflexivity.
  - destruct (first_occurrence LF b) as [H|(l & r & -> & H)].
    + rewrite !drain_fuel_done by assumption. reflexivity.
    + rewrite length_app in Hf, Hf'. simpl in Hf, Hf'.
      destruct f' as [|f']; [lia|].
      rewrite !drain_fuel_line by assumption.
      apply IH; lia.
Qed.

(** The inner loop always ends: the length of the buffer is fuel enough. *)
Lemma drain_fuel_total (f : nat) :
  forall (b : jsstring) (c : list value),
    (length b <= f)%nat -> exists r, drain_fuel f b c = Some r.
Proof.
  induction f as [|f IH]; intros b c Hf.
  - destruct b; [|simpl in Hf; lia]. eexists. apply drain_fuel_done. simpl; auto.
  - destruct (first_occurrence LF b) as [H|(l & r & -> & H)].
    + eexists. apply drain_fuel_done. assumption.
    + rewrite drain_fuel_line by assumption. apply IH.
      rewrite length_app in Hf. simpl in Hf. lia.
Qed.

(** The loop's exit: a buffer without a newline is left as it is. *)
Lemma drain_done (b : jsstring) (c : list value) :
  ~ In LF b -> drain b c = (b, c).
Proof.
  intros H. unfold drain. rewrite drain_fuel_done by assumption. reflexivity.
Qed.

(** The loop's round: the first line is cut off and processed, and the
    loop goes on with what follows the newline. *)
Lemma drain_line (l r : jsstring) (c : list value) :
  ~ In LF l -> drain (l ++ LF :: r) c = drain r (process_line l c).
Proof.
  intros H. unfold drain. rewrite length_app. simpl length.
  rewrite Nat.add_succ_r, drain_fuel_line by assumption.
  rewrite (drain_fuel_enough (length l + length r) (length r)) by lia.
  destruct (drain_fuel_total (length r) r (process_line l c)) as [x ->];
    [lia | reflexivity].
Qed.

(** What is left in the buffer holds no newline. *)
Lemma drain_buffer (n : nat) :
  forall (b : jsstring) (c : list value),
    (length b <= n)%nat -> ~ In LF (fst (drain b c)).
Proof.
  induction n as [|n IH]; intros b c Hn.
  - destruct b; [|simpl in Hn; lia]. rewrite drain_done; simpl; auto.
  - destruct (first_occurrence LF b) as [H|(l & r & -> & H)].
    + rewrite drain_done; assumption.
    + rewrite drain_line by assumption. apply IH.
      rewrite length_app in Hn. simpl in Hn. lia.
Qed.

(** Text that arrives later can wait: draining first and appending then
    gives the same as draining everything at once. *)
Lemma drain_app (n : nat) :
  forall (b t : jsstring) (c : list value),
    (length b <= n)%nat ->
    drain (b ++ t) c = drain (fst (drain b c) ++ t) (snd (drain b c)).
Proof.
  induction n as [|n IH]; intros b t c Hn.
  - destruct b; [|simpl in Hn; lia]. rewrite (drain_done []); simpl; auto.
  - destruct (first_occurrence LF b) as [H|(l & r & -> & H)].
    + rewrite (drain_done b) by assumption. reflexivity.
    + rewrite <- app_assoc. simpl app.
      rewrite !drain_line by assumption.
      apply IH. rewrite length_app in Hn. simpl in Hn. lia.
Qed.

Lemma process_line_appends (line : jsstring) (c : list value) :
  process_line line c = c ++ process_line line [].
Proof.
  unfold process_line. destruct (trim line); [now rewrite app_nil_r|].
  destruct (JSON.parse _) as [parsed|]; [|now rewrite app_nil_r].
  destruct (truthy (get_content parsed)); [reflexivity | now rewrite app_nil_r].
Qed.

(** The inner loop only appends to the contents it is given. *)
Lemma drain_appends (n : nat) :
  forall (b : jsstring) (c : list value),
    (length b <= n)%nat ->
    drain b c = (fst (drain b []), c ++ snd (drain b [])).
Proof.
  induction n as [|n IH]; intros b c Hn.
  - destruct b; [|simpl in Hn; lia].
    rewrite !(drain_done []) by (simpl; auto). simpl. now rewrite app_nil_r.
  - destruct (first_occurrence LF b) as [H|(l & r & -> & H)].
    + rewrite !(drain_done b) by assumption. simpl. now rewrite app_nil_r.
    + rewrite !drain_line by assumption.
      rewrite length_app in Hn. simpl in Hn.
      rewrite (IH r (process_line l c)), (IH r (process_line l [])) by lia.
      simpl. rewrite (process_line_appends l c), app_assoc. reflexivity.
Qed.

(* ================================================================== *)
(** * The outer loop *)
(* ================================================================== *)

Lemma decode_stream_app (a b : list Z) :
  forall d : TextDecoder.t,
    TextDecoder.decode_stream d (a ++ b)
    = let '(d1, s1) := TextDecoder.decode_stream d a in
      let '(d2, s2) := TextDecoder.decode_stream d1 b in
      (d2, s1 ++ s2).
Proof.
  induction a as [|x a IH]; intros d; simpl.
  - destruct (TextDecoder.decode_stream d b). reflexivity.
  - destruct (TextDecoder.step d x) as [d1 s1]. rewrite IH.
    destruct (TextDecoder.decode_stream d1 a) as [d2 s2].
    destruct (TextDecoder.decode_stream d2 b) as [d3 s3].
    rewrite app_assoc. reflexivity.
Qed.

Lemma read_chunk_reading_of (bytes chunk : list Z) :
  read_chunk (reading_of bytes) chunk = reading_of (bytes ++ chunk).
Proof.
  unfold reading_of, read_chunk, start. simpl.
  rewrite decode_stream_app.
  destruct (TextDecoder.decode_stream TextDecoder.create bytes) as [d1 s1].
  destruct (drain s1 []) as [b1 c1] eqn:E1. simpl.
  destruct (TextDecoder.decode_stream d1 chunk) as [d2 s2].
  rewrite (drain_app (length s1) s1 s2 []) by lia.
  rewrite E1. reflexivity.
Qed.

(** Chunk boundaries do not matter: the loop ends in the state it would
    reach on the whole stream delivered at once. *)
Lemma read_loop_concat (chunks : list (list Z)) :
  read_loop chunks = reading_of (concat chunks).
Proof.
  unfold read_loop.
  assert (G : forall pre, fold_left read_chunk chunks (reading_of pre)
                          = reading_of (pre ++ concat chunks)).
  { induction chunks as [|ch chunks IH]; intros pre; simpl.
    - now rewrite app_nil_r.
    - rewrite read_chunk_reading_of, IH, <- app_assoc. reflexivity. }
  apply (G []).
Qed.

(** The loop's result in terms of the decoded text. *)
Lemma read_loop_text (chunks : list (list Z)) :
  buffer (read_loop chunks) = fst (drain (stream_text chunks) [])
  /\ contents (read_loop chunks) = snd (drain (stream_text chunks) []).
Proof.
  rewrite read_loop_concat. unfold reading_of, read_chunk, stream_text, start.
  simpl. destruct (TextDecoder.decode_stream _ _) as [d s]. simpl.
  destruct (drain s []). auto.
Qed.

Lemma complete_tail (l r : jsstring) : complete (l ++ LF :: r) -> complete r.
Proof.
  intros [H|(l' & H)].
  - destruct l; discriminate.
  - destruct r as [|x r0 _] using rev_ind; [now left|].
    right. exists r0.
    change (l ++ LF :: r0 ++ [x]) with (l ++ (LF :: r0) ++ [x]) in H.
    rewrite app_assoc in H. apply app_inj_tail in H as [_ <-]. reflexivity.
Qed.

(** Whole lines leave nothing in the buffer. *)
Lemma drain_complete (n : nat) :
  forall (lines : jsstring) (c : list value),
    (length lines <= n)%nat -> complete lines -> fst (drain lines c) = [].
Proof.
  induction n as [|n IH]; intros lines c Hn Hc.
  - destruct lines; [|simpl in Hn; lia]. rewrite drain_done; simpl; auto.
  - destruct (first_occurrence LF lines) as [H|(l & r & -> & H)].
    + destruct Hc as [->|(l' & ->)]; [rewrite drain_done; simpl; auto|].
      exfalso. apply H, in_or_app. right. simpl. auto.
    + rewrite drain_line by assumption. apply IH.
      * rewrite length_app in Hn. simpl in Hn. lia.
      * eapply complete_tail; eassumption.
Qed.

(** After whole lines the loop starts afresh on what follows, with the
    contents those lines gave. *)
Lemma drain_after_complete (lines rest : jsstring) (c : list value) :
  complete lines ->
  drain (lines ++ rest) c = drain rest (snd (drain lines c)).
Proof.
  intros Hc. rewrite (drain_app (length lines)) by lia.
  rewrite (drain_complete (length lines)) by (lia || assumption).
  reflexivity.
Qed.

Lemma process_line_malformed (line : jsstring) (c : list value) :
  JSON.parse (jsonPart (trim line)) = None -> process_line line c = c.
Proof.
  intros H. unfold process_line. destruct (trim line); [reflexivity|].
  rewrite H. reflexivity.
Qed.

Lemma read_body_ends (chunks : list (list Z)) :
  read_body (mkBody chunks None)
  = Return (snd (drain (stream_text chunks) [])).
Proof.
  unfold read_body. simpl. destruct (read_loop_text chunks) as [_ ->].
  reflexivity.
Qed.

(** A call that passes validation and gets a successful response with a
    body: one request, and the outcome of the reading loop. *)
Lemma sendMessageStream_reads (w : World) (m : Message) (res : Response)
      (b : BodyStream) :
  truthy (of_string (sessionId m)) = true ->
  truthy (of_string (text m)) || truthy (inlineData m) = true ->
  w (run_sse m) = Resolved res ->
  ok res = true ->
  res_body res = Some b ->
  run w (sendMessageStream m) = ([run_sse m], read_body b).
Proof.
  intros Hs Hm Hw Hok Hb. unfold sendMessageStream. rewrite Hs. simpl.
  apply orb_true_iff in Hm.
  replace (negb (truthy (of_string (text m))) && negb (truthy (inlineData m)))
    with false by (destruct Hm as [-> | ->]; simpl; auto using andb_false_r).
  simpl. rewrite Hw. simpl. rewrite Hok. simpl. rewrite Hb.
  destruct (read_body b); reflexivity.
Qed.

(* ================================================================== *)
(** * Properties of the reading loop *)
(* ================================================================== *)

(** C1. However the bytes of the two records [data: {"content":"a"}] and
    [data: {"content":"b"}], each ended by a newline, are cut into chunks
    (two chunks or more or fewer, cuts in the middle of a line or of a
    record, empty chunks), the reading loop returns exactly ["a", "b"],
    in that order. *)
Theorem two_records_any_chunking (chunks : list (list Z)) :
  concat chunks = record_a ++ record_b ->
  read_body (mkBody chunks None) = Return [Str (js "a"); Str (js "b")].
Proof.
  intros H. rewrite read_body_ends. unfold stream_text. rewrite H.
  vm_compute. reflexivity.
Qed.

(** The stream cut in the middle of the first line and in the middle of
    the second record's [data:] prefix. *)
Lemma two_records_any_chunking_witness :
  read_body (mkBody [jsq "data: {'con"; jsq "tent':'a'}" ++ [LF] ++ js "da";
                     jsq "ta: {'content':'b'}" ++ [LF]] None)
  = Return [Str (js "a"); Str (js "b")].
Proof.
  apply two_records_any_chunking. vm_compute. reflexivity.
Defined.

Lemma parse_empty_text : JSON.parse (jsonPart []) = None.
Proof. reflexivity. Qed.

(** A valid record adds its fragment. *)
Lemma process_line_record (line : jsstring) (v : value) (c : list value) :
  record_of line v -> process_line line c = c ++ [v].
Proof.
  intros (_ & parsed & Hp & Ht & ->). unfold process_line.
  destruct (trim line) as [|x t]; [rewrite parse_empty_text in Hp; discriminate|].
  now rewrite Hp, Ht.
Qed.

(** Valid records, one after the other, add their fragments in order. *)
Lemma drain_records (records : list jsstring) (fragments : list value) :
  Forall2 record_of records fragments ->
  forall (rest : jsstring) (c : list value),
    drain (lines_text records ++ rest) c = drain rest (c ++ fragments).
Proof.
  induction 1 as [|l v records fragments Hl _ IH]; intros rest c; simpl.
  - now rewrite app_nil_r.
  - rewrite <- !app_assoc. simpl app.
    rewrite drain_line by (destruct Hl; assumption).
    rewrite (process_line_record l v c Hl), IH, <- app_assoc. reflexivity.
Qed.

(** C5. A complete line whose candidate text fails [JSON.parse] is
    dropped without an error and without ending the loop: with any text
    of whole lines before it, any valid records right before and right
    after it, and any text after those, the loop returns; what it returns
    is the fragments of the text before, then the fragment of every valid
    record before the line, then the fragment of every valid record after
    it, in their order, then the fragments of the text after; and that is
    what it returns for the stream without the line. *)
Theorem malformed_line_is_skipped
        (chunks chunks' : list (list Z)) (before : jsstring)
        (records1 : list jsstring) (fragments1 : list value)
        (line : jsstring)
        (records2 : list jsstring) (fragments2 : list value)
        (after : jsstring) :
  stream_text chunks
  = before ++ lines_text records1 ++ line ++ LF :: lines_text records2 ++ after ->
  stream_text chunks' = before ++ lines_text records1 ++ lines_text records2 ++ after ->
  complete before ->
  Forall2 record_of records1 fragments1 ->
  ~ In LF line ->
  JSON.parse (jsonPart (trim line)) = None ->
  Forall2 record_of records2 fragments2 ->
  read_body (mkBody chunks None)
  = Return (snd (drain before []) ++ fragments1 ++ fragments2
            ++ snd (drain after []))
  /\ read_body (mkBody chunks None) = read_body (mkBody chunks' None).
Proof.
  intros Ht Ht' Hc H1 Hl Hp H2. rewrite !read_body_ends, Ht, Ht'.
  assert (E : forall c, drain after c = (fst (drain after []), c ++ snd (drain after [])))
    by (intros c; apply (drain_appends (length after)); lia).
  assert (E' : snd (drain (before ++ lines_text records1 ++ lines_text records2 ++ after) [])
               = snd (drain before []) ++ fragments1 ++ fragments2
                 ++ snd (drain after [])).
  { rewrite drain_after_complete by assumption.
    rewrite (drain_records records1 fragments1 H1).
    rewrite (drain_records records2 fragments2 H2).
    rewrite E. simpl. now rewrite <- !app_assoc. }
  rewrite E'. clear E'.
  rewrite drain_after_complete by assumption.
  rewrite (drain_records records1 fragments1 H1).
  rewrite drain_line by assumption.
  rewrite process_line_malformed by assumption.
  rewrite (drain_records records2 fragments2 H2).
  rewrite E. simpl. rewrite <- !app_assoc. split; reflexivity.
Qed.

(** The spec's example: [data: not-json] between the records "a" and "b",
    the stream cut inside the malformed line. *)
Lemma malformed_line_is_skipped_witness :
  read_body (mkBody [record_a ++ js "data: not-"; js "json" ++ [LF] ++ record_b] None)
  = Return [Str (js "a"); Str (js "b")]
  /\ read_body (mkBody [record_a ++ js "data: not-"; js "json" ++ [LF] ++ record_b] None)
     = read_body (mkBody [record_a; record_b] None).
Proof.
  assert (Ra : record_of (jsq "data: {'content':'a'}") (Str (js "a"))).
  { split; [vm_compute; intuition discriminate|].
    exists (Object [(js "content", Str (js "a"))]). repeat split. }
  assert (Rb : record_of (jsq "data: {'content':'b'}") (Str (js "b"))).
  { split; [vm_compute; intuition discriminate|].
    exists (Object [(js "content", Str (js "b"))]). repeat split. }
  refine (malformed_line_is_skipped
            [record_a ++ js "data: not-"; js "json" ++ [LF] ++ record_b]
            [record_a; record_b] []
            [jsq "data: {'content':'a'}"] [Str (js "a")]
            (js "data: not-json")
            [jsq "data: {'content':'b'}"] [Str (js "b")] []
            _ _ _ _ _ _ _).
  - vm_compute. reflexivity.
  - vm_compute. reflexivity.
  - left. reflexivity.
  - constructor; [exact Ra | constructor].
  - vm_compute. intuition discriminate.
  - vm_compute. reflexivity.
  - constructor; [exact Rb | constructor].
Defined.

(** The same example evaluated: only "a" and "b" come out. *)
Example not_json_between_records (chunks : list (list Z)) :
  concat chunks = record_a ++ js "data: not-json" ++ [LF] ++ record_b ->
  read_body (mkBody chunks None) = Return [Str (js "a"); Str (js "b")].
Proof.
  intros H. rewrite read_body_ends. unfold stream_text. rewrite H.
  vm_compute. reflexivity.
Qed.

(** C6. When the stream ends, the text after the last newline is still in
    the buffer and is not parsed: the loop returns what it returns for the
    stream that stops at the last newline, so only complete lines
    contribute. *)
Theorem trailing_partial_line_is_dropped
        (chunks chunks' : list (list Z)) (lines partial : jsstring) :
  stream_text chunks = lines ++ partial ->
  stream_text chunks' = lines ->
  complete lines ->
  ~ In LF partial ->
  read_body (mkBody chunks None) = read_body (mkBody chunks' None)
  /\ (exists out, read_body (mkBody chunks None) = Return out)
  /\ buffer (read_loop chunks) = partial.
Proof.
  intros Ht Ht' Hc Hp.
  destruct (read_loop_text chunks) as [-> _].
  rewrite !read_body_ends, Ht, Ht'.
  rewrite drain_after_complete by assumption.
  rewrite drain_done by assumption. simpl.
  split; [reflexivity|]. split; [eauto | reflexivity].
Qed.

(** The record "b" without its newline is left in the buffer. *)
Lemma trailing_partial_line_is_dropped_witness :
  read_body (mkBody [record_a ++ jsq "data: {'content':'b'}"] None)
  = read_body (mkBody [record_a] None)
  /\ (exists out,
       read_body (mkBody [record_a ++ jsq "data: {'content':'b'}"] None)
       = Return out)
  /\ buffer (read_loop [record_a ++ jsq "data: {'content':'b'}"])
     = jsq "data: {'content':'b'}".
Proof.
  apply (trailing_partial_line_is_dropped _ _ record_a).
  - vm_compute. reflexivity.
  - vm_compute. reflexivity.
  - right. exists (jsq "data: {'content':'a'}"). reflexivity.
  - vm_compute. intuition discriminate.
Defined.

Example trailing_partial_line_value :
  read_body (mkBody [record_a ++ jsq "data: {'content':'b'}"] None)
  = Return [Str (js "a")].
Proof. vm_compute. reflexivity. Qed.

(** C2, as stated, fails: the record [{"content":""}] parses, the object
    has a [content] field, and nothing is appended; the same holds for
    the values [0], [false] and [null]. *)
Lemma content_field_not_always_appended :
  JSON.parse (jsonPart (trim (jsq "data: {'content':''}")))
  = Some (Object [(js "content", Str [])])
  /\ has_property (js "content") (Object [(js "content", Str [])]) = true
  /\ read_body (mkBody [jsq "data: {'content':''}" ++ [LF]] None) = Return []
  /\ read_body (mkBody [jsq "{'content':0}" ++ [LF] ++ jsq "{'content':false}"
                        ++ [LF] ++ jsq "{'content':null}" ++ [LF]] None)
     = Return [].
Proof. vm_compute. auto. Qed.

Lemma parse_empty_candidate : JSON.parse (jsonPart []) = None.
Proof. reflexivity. Qed.

(** C2, amended. For every complete line whose candidate text parses as
    JSON: when the [content] property of the parsed value is truthy, that
    value is appended to the output sequence, whatever truthy value it
    is; when it is absent or falsy ([undefined], [null], [false], a zero,
    the empty string), the output sequence is left as it is. Either way
    the loop goes on with the text after the newline. *)
Theorem truthy_content_is_appended
        (line rest : jsstring) (out : list value) (parsed : value) :
  ~ In LF line ->
  JSON.parse (jsonPart (trim line)) = Some parsed ->
  (truthy (get_content parsed) = true ->
   drain (line ++ LF :: rest) out = drain rest (out ++ [get_content parsed]))
  /\ (truthy (get_content parsed) = false ->
      drain (line ++ LF :: rest) out = drain rest out).
Proof.
  intros Hl Hp. rewrite drain_line by assumption.
  unfold process_line. destruct (trim line) as [|x t] eqn:Et.
  - rewrite parse_empty_candidate in Hp. discriminate.
  - rewrite Hp. split; intros ->; reflexivity.
Qed.

(** An object as content is passed through as it is. *)
Lemma truthy_content_is_appended_witness :
  drain (jsq " data: {'content':{'parts':[1]}}" ++ LF :: js "rest") [Str (js "a")]
  = (js "rest", [Str (js "a");
                 Object [(js "parts", Array [Number (mkNumber false 1 0)])]]).
Proof.
  refine (eq_trans
            (proj1 (truthy_content_is_appended
                      (jsq " data: {'content':{'parts':[1]}}") (js "rest")
                      [Str (js "a")]
                      (Object [(js "content",
                                Object [(js "parts",
                                         Array [Number (mkNumber false 1 0)])])])
                      _ _) _) _).
  - vm_compute. intuition discriminate.
  - vm_compute. reflexivity.
  - reflexivity.
  - vm_compute. reflexivity.
Defined.

(* ================================================================== *)
(** * Properties of the session and upload operations *)
(* ================================================================== *)

(** Running a program that starts with a request. *)
Lemma run_fetch {A : Type} (w : World) (req : Request) (k : Response -> Prog A) :
  run w (bind (fetch req) k)
  = match w req with
    | Resolved res => (req :: fst (run w (k res)), snd (run w (k res)))
    | Rejected e => ([req], Throw e)
    end.
Proof.
  simpl. destruct (w req) as [res|e]; simpl; [|reflexivity].
  destruct (run w (k res)). reflexivity.
Qed.

(** [listSessions] never throws, whatever the world does. *)
Lemma listSessions_returns (w : World) :
  exists v, run w listSessions = ([listSessions_request], Return v).
Proof.
  unfold listSessions, listSessions_request. simpl.
  destruct (w _) as [res|e]; simpl; [|eauto].
  destruct (ok res); simpl; eauto.
Qed.

Lemma or_else_null (v : value) : or_else Null v = v.
Proof. reflexivity. Qed.

Lemma safeJson_parse_failure (res : Response) (e : Exn) :
  Response_json res = Throw e -> safeJson res = Null.
Proof.
  intros H. unfold safeJson. rewrite H. destruct (status res =? 204); reflexivity.
Qed.

(** C3, as stated, fails for [getSession]: the function has no [try], so
    a rejected [fetch] (a network failure) rejects the call. *)
Lemma getSession_network_failure_propagates :
  run (fun _ => Rejected (mkExn (js "TypeError") (js "Failed to fetch")))
      (getSession (js "s1"))
  = ([getSession_request (js "s1")],
     Throw (mkExn (js "TypeError") (js "Failed to fetch"))).
Proof. reflexivity. Qed.

(** C3, amended. [listSessions] never fails: a network failure, a
    non-success status and a body that cannot be read or parsed all give
    the empty sequence. [getSession], once its request has been answered
    with a response, never fails either: a non-success status and a body
    that cannot be read or parsed give [null]. *)
Theorem sessions_degrade_silently (w : World) (id : jsstring) :
  (exists v, snd (run w listSessions) = Return v)
  /\ (forall e, w listSessions_request = Rejected e ->
                snd (run w listSessions) = Return (Array []))
  /\ (forall res, w listSessions_request = Resolved res -> ok res = false ->
                  snd (run w listSessions) = Return (Array []))
  /\ (forall res e, w listSessions_request = Resolved res ->
                    Response_json res = Throw e ->
                    snd (run w listSessions) = Return (Array []))
  /\ (forall res, w (getSession_request id) = Resolved res ->
                  exists v, snd (run w (getSession id)) = Return v)
  /\ (forall res, w (getSession_request id) = Resolved res -> ok res = false ->
                  snd (run w (getSession id)) = Return Null)
  /\ (forall res e, w (getSession_request id) = Resolved res ->
                    Response_json res = Throw e ->
                    snd (run w (getSession id)) = Return Null).
Proof.
  repeat split.
  - destruct (listSessions_returns w) as [v ->]. simpl. eauto.
  - intros e H. unfold listSessions. simpl.
    fold listSessions_request. rewrite H. reflexivity.
  - intros res H Hok. unfold listSessions. simpl.
    fold listSessions_request. rewrite H. simpl. rewrite Hok. reflexivity.
  - intros res e H Hj. unfold listSessions. simpl.
    fold listSessions_request. rewrite H. simpl.
    destruct (ok res); simpl; [|reflexivity].
    rewrite (safeJson_parse_failure res e Hj). reflexivity.
  - intros res H. unfold getSession. simpl.
    fold (getSession_request id). rewrite H. simpl.
    destruct (ok res); simpl; eauto.
  - intros res H Hok. unfold getSession. simpl.
    fold (getSession_request id). rewrite H. simpl. rewrite Hok. reflexivity.
  - intros res e H Hj. unfold getSession. simpl.
    fold (getSession_request id). rewrite H. simpl.
    destruct (ok res); simpl; [|reflexivity].
    rewrite (safeJson_parse_failure res e Hj). reflexivity.
Qed.

Lemma sessions_degrade_silently_witness :
  snd (run server_error listSessions) = Return (Array [])
  /\ snd (run server_error (getSession (js "s1"))) = Return Null.
Proof.
  pose proof (sessions_degrade_silently server_error (js "s1"))
    as (_ & _ & Hl & _ & _ & Hg & _).
  split.
  - apply (Hl _ eq_refl). reflexivity.
  - apply (Hg _ eq_refl). reflexivity.
Defined.

Lemma http_error_carries (res : Response) :
  carries_text_or_status res (http_error res).
Proof.
  unfold carries_text_or_status, http_error, text_or_empty. simpl.
  split; [reflexivity|].
  destruct (Response_text res) as [[|c t]|e]; try reflexivity;
    (split; [reflexivity|]); exists (js "HTTP "), []; now rewrite app_nil_r.
Qed.

(** C7. A non-success response to [createSession], [deleteSession] or
    [uploadFile] makes the operation fail with an Error whose message is
    the text of the response body when that text is not empty, and
    otherwise (an empty body, or one that cannot be read) the string
    [HTTP <status>], which contains the status code in decimal. *)
Theorem failed_response_raises_text_or_status
        (w : World) (res : Response) (id : jsstring) (file : File) :
  ok res = false ->
  (w createSession_request = Resolved res ->
   exists e, run w createSession = ([createSession_request], Throw e)
             /\ carries_text_or_status res e)
  /\ (w (deleteSession_request id) = Resolved res ->
      exists e, run w (deleteSession id) = ([deleteSession_request id], Throw e)
                /\ carries_text_or_status res e)
  /\ (w (uploadFile_request [(js "file", file)]) = Resolved res ->
      exists e, run w (uploadFile file)
                = ([uploadFile_request [(js "file", file)]], Throw e)
                /\ carries_text_or_status res e).
Proof.
  intros Hok. repeat split; intros Hw; exists (http_error res);
    (split; [|apply http_error_carries]).
  - unfold createSession. simpl. fold createSession_request.
    rewrite Hw. simpl. rewrite Hok. reflexivity.
  - unfold deleteSession. simpl. fold (deleteSession_request id).
    rewrite Hw. simpl. rewrite Hok. reflexivity.
  - unfold uploadFile. cbv zeta. rewrite run_fetch, Hw, Hok. reflexivity.
Qed.

Lemma failed_response_raises_text_or_status_witness :
  (exists e, run server_error createSession = ([createSession_request], Throw e)
             /\ message e = js "<html>oops")
  /\ (exists e, run not_found (deleteSession (js "s1"))
                = ([deleteSession_request (js "s1")], Throw e)
                /\ message e = js "HTTP 404").
Proof.
  split.
  - destruct (failed_response_raises_text_or_status
                server_error
                (mkResponse 500 (Some (mkBody [js "<html>"; js "oops"] None)))
                (js "s1") (mkFile (js "log.txt") []) eq_refl)
      as [H _].
    destruct (H eq_refl) as (e & Hr & _ & Hm).
    exists e. split; [exact Hr | exact Hm].
  - destruct (failed_response_raises_text_or_status
                not_found (mkResponse 404 (Some (mkBody [] None)))
                (js "s1") (mkFile (js "log.txt") []) eq_refl)
      as (_ & H & _).
    destruct (H eq_refl) as (e & Hr & _ & Hm & _).
    exists e. split; [exact Hr | exact Hm].
Defined.

(** The values that count as false. *)
Lemma falsy_values (v : value) :
  truthy v = false <->
  v = Undefined \/ v = Null \/ v = Bool false \/ v = Str []
  \/ exists n, v = Number n /\ rounds_to_zero n = true.
Proof.
  split.
  - destruct v as [| |[]|n|[|c s]|l|p]; simpl; intros H; try discriminate; auto.
    do 4 right. exists n. split; [reflexivity|].
    now apply negb_false_iff.
  - intros [->|[->|[->|[->|(n & -> & H)]]]]; simpl; auto.
    now rewrite H.
Qed.

(** C10. When the response to [listSessions] is successful, is not a 204,
    and its body parses to a falsy value ([null], [false], a zero, the
    empty string), [listSessions] returns the empty sequence and not that
    value. [safeJson] gives [null] for every 204 and for every body that
    cannot be read or does not parse as JSON. *)
Theorem falsy_body_gives_no_sessions :
  (forall (w : World) (res : Response) (v : value),
      w listSessions_request = Resolved res ->
      ok res = true ->
      status res <> 204 ->
      Response_json res = Return v ->
      truthy v = false ->
      run w listSessions = ([listSessions_request], Return (Array [])))
  /\ (forall res : Response, status res = 204 -> safeJson res = Null)
  /\ (forall (res : Response) (e : Exn),
         Response_json res = Throw e -> safeJson res = Null)
  /\ (forall (res : Response) (bytes : list Z),
         read_all res = Return bytes ->
         JSON.parse (TextDecoder.decode bytes) = None ->
         safeJson res = Null).
Proof.
  repeat split.
  - intros w res v Hw Hok Hs Hj Hv. unfold listSessions. simpl.
    fold listSessions_request. rewrite Hw. simpl. rewrite Hok. simpl.
    unfold safeJson. apply Z.eqb_neq in Hs. rewrite Hs, Hj.
    unfold or_else. rewrite Hv. reflexivity.
  - intros res Hs. unfold safeJson. rewrite Hs. reflexivity.
  - intros res e. apply safeJson_parse_failure.
  - intros res bytes Hr Hp. unfold safeJson, Response_json.
    rewrite Hr, Hp. destruct (status res =? 204); reflexivity.
Qed.

Lemma falsy_body_gives_no_sessions_witness :
  run (answers (js "null")) listSessions = ([listSessions_request], Return (Array []))
  /\ run (answers (js "false")) listSessions = ([listSessions_request], Return (Array []))
  /\ run (answers (js "0")) listSessions = ([listSessions_request], Return (Array []))
  /\ run (answers [34; 34]) listSessions = ([listSessions_request], Return (Array []))
  /\ safeJson (mkResponse 204 None) = Null
  /\ safeJson (mkResponse 200 (Some (mkBody [js "<html>"] None))) = Null.
Proof.
  destruct falsy_body_gives_no_sessions as (Hl & H204 & _ & Hp).
  split; [|split; [|split; [|split; [|split]]]].
  - apply (Hl _ _ Null eq_refl); try reflexivity. discriminate.
  - apply (Hl _ _ (Bool false) eq_refl); try reflexivity. discriminate.
  - apply (Hl _ _ (Number (mkNumber false 0 0)) eq_refl); try reflexivity.
    discriminate.
  - apply (Hl _ _ (Str []) eq_refl); try reflexivity. discriminate.
  - apply H204. reflexivity.
  - apply (Hp _ (js "<html>")); reflexivity.
Defined.

(* ================================================================== *)
(** * Validation in sendMessageStream *)
(* ================================================================== *)

(** C4. The guard is [!text && !inlineData], on the text as given, while
    the parts are built from [text.trim()]: for sessionId [s1], text of
    three spaces (which trims to the empty string) and no inlineData, the
    call passes validation and issues its request, whose message has no
    parts, where the property promises a validation error and no
    request. *)
Lemma whitespace_text_passes_validation :
  trim (js "   ") = []
  /\ fst (run not_found
              (sendMessageStream (mkMessage (Some (js "s1")) (Some (js "   ")) Null)))
     = [run_sse (mkMessage (Some (js "s1")) (Some (js "   ")) Null)]
  /\ parts (mkMessage (Some (js "s1")) (Some (js "   ")) Null) = [].
Proof. vm_compute. auto. Qed.

(* ================================================================== *)
(** * The vehicle id pattern *)
(* ================================================================== *)

Section Runs.

Variable p : Z -> bool.

Lemma take_drop_while (s : jsstring) : take_while p s ++ drop_while p s = s.
Proof.
  induction s as [|x s IH]; simpl; [reflexivity|].
  destruct (p x); simpl; [now rewrite IH | reflexivity].
Qed.

Lemma take_while_all (s : jsstring) : Forall (fun x => p x = true) (take_while p s).
Proof.
  induction s as [|x s IH]; simpl; [constructor|].
  destruct (p x) eqn:E; constructor; assumption.
Qed.

Lemma drop_while_run (run rest : jsstring) :
  Forall (fun x => p x = true) run ->
  match rest with [] => True | x :: _ => p x = false end ->
  drop_while p (run ++ rest) = rest.
Proof.
  intros Hr Hx. induction Hr as [|x run Hp _ IH]; simpl.
  - destruct rest as [|x rest]; [reflexivity|]. simpl. now rewrite Hx.
  - now rewrite Hp.
Qed.

(** Backtracking out of a greedy repetition never helps when what
    follows cannot start with a character of the class. *)
Lemma star_disjoint (k : jsstring -> option RegExp.state) :
  (forall x s, p x = true -> k (x :: s) = None) ->
  forall s, RegExp.star p k s = k (drop_while p s).
Proof.
  intros Hk s. induction s as [|x s IH]; simpl; [reflexivity|].
  destruct (p x) eqn:E; [|reflexivity].
  rewrite IH. destruct (k (drop_while p s)) eqn:Ek; [reflexivity|].
  now apply Hk.
Qed.

(** Nor is there any when what follows always matches. *)
Lemma star_greedy (g : jsstring -> RegExp.state) (s : jsstring) :
  RegExp.star p (fun s' => Some (g s')) s = Some (g (drop_while p s)).
Proof.
  induction s as [|x s IH]; simpl; [reflexivity|].
  destruct (p x); [now rewrite IH | reflexivity].
Qed.

End Runs.

Lemma matcher_word (w : jsstring) :
  forall s cap k,
    RegExp.matcher (RegExp.word w) s cap k
    = match strip_word w s with
      | Some r => k r cap
      | None => None
      end.
Proof.
  induction w as [|c w IH]; intros s cap k; simpl; [reflexivity|].
  destruct s as [|x s]; [reflexivity|].
  destruct (RegExp.canonicalize x =? RegExp.canonicalize c); [apply IH | reflexivity].
Qed.

Lemma strip_word_split (w : jsstring) :
  forall s r,
    strip_word w s = Some r ->
    exists w', s = w' ++ r
               /\ map RegExp.canonicalize w' = map RegExp.canonicalize w.
Proof.
  induction w as [|c w IH]; intros s r H; simpl in H.
  - injection H as ->. exists []. auto.
  - destruct s as [|x s]; [discriminate|].
    destruct (Z.eqb_spec (RegExp.canonicalize x) (RegExp.canonicalize c)) as [E|_];
      [|discriminate].
    destruct (IH _ _ H) as (w' & -> & Hw).
    exists (x :: w'). simpl. rewrite E, Hw. auto.
Qed.

Ltac bools :=
  repeat match goal with
         | H : _ || _ = true |- _ => apply orb_true_iff in H
         | H : _ && _ = true |- _ => apply andb_true_iff in H
         | H : _ /\ _ |- _ => destruct H
         | H : (_ =? _) = true |- _ => apply Z.eqb_eq in H
         | H : (_ <=? _) = true |- _ => apply Z.leb_le in H
         | H : (_ =? _) = false |- _ => apply Z.eqb_neq in H
         | H : (_ <=? _) = false |- _ => apply Z.leb_gt in H
         | H : _ || _ = false |- _ => apply orb_false_iff in H
         end.

Lemma separator_not_token (x : Z) : is_separator x = true -> is_token x = false.
Proof.
  intros H. destruct (is_token x) eqn:E; [exfalso|reflexivity].
  unfold is_separator, is_white_space, is_token in *. bools.
  repeat match goal with H : _ \/ _ |- _ => destruct H end; bools; lia.
Qed.

Lemma white_space_not_letter (x c : Z) :
  is_white_space x = true -> 65 <= c <= 90 ->
  (RegExp.canonicalize x =? c) = false.
Proof.
  intros H Hc. apply Z.eqb_neq. unfold RegExp.canonicalize.
  unfold is_white_space in H. bools.
  destruct ((97 <=? x) && (x <=? 122)) eqn:E; bools;
    repeat match goal with H : _ \/ _ |- _ => destruct H end; bools; lia.
Qed.

(** Group 1 and the input after it, for a token at the start of [s]. *)
Lemma matcher_token (s : jsstring) (cap : option jsstring) :
  RegExp.matcher
    (RegExp.Group (RegExp.Seq (RegExp.Class is_token) (RegExp.Star is_token)))
    s cap (fun s' cap' => Some (s', cap'))
  = token_run s.
Proof.
  destruct s as [|c post]; simpl; [reflexivity|].
  destruct (is_token c); [|reflexivity].
  rewrite (star_greedy is_token
             (fun s' => (s', Some (firstn (length (c :: post) - length s') (c :: post))))).
  do 3 f_equal.
  rewrite <- (take_drop_while is_token post) at 1 3.
  replace (length (c :: take_while is_token post ++ drop_while is_token post)
           - length (drop_while is_token post))%nat
    with (length (c :: take_while is_token post))
    by (rewrite !length_cons, length_app; lia).
  change (c :: take_while is_token post ++ drop_while is_token post)
    with ((c :: take_while is_token post) ++ drop_while is_token post).
  rewrite firstn_app, firstn_all, Nat.sub_diag. simpl. now rewrite app_nil_r.
Qed.

Lemma matcher_seq (a b : RegExp.t) s cap k :
  RegExp.matcher (RegExp.Seq a b) s cap k
  = RegExp.matcher a s cap (fun s' cap' => RegExp.matcher b s' cap' k).
Proof. reflexivity. Qed.

Lemma matcher_alt (a b : RegExp.t) s cap k :
  RegExp.matcher (RegExp.Alt a b) s cap k
  = match RegExp.matcher a s cap k with
    | Some res => Some res
    | None => RegExp.matcher b s cap k
    end.
Proof. reflexivity. Qed.

Lemma matcher_star (p : Z -> bool) s cap k :
  RegExp.matcher (RegExp.Star p) s cap k
  = RegExp.star p (fun s' => k s' cap) s.
Proof. reflexivity. Qed.

(** Separators, then a token. *)
Lemma matcher_vehicle_token (s : jsstring) (cap : option jsstring) :
  RegExp.matcher vehicle_token s cap (fun s' cap' => Some (s', cap'))
  = token_run (drop_while is_separator s).
Proof.
  unfold vehicle_token. rewrite matcher_seq, matcher_star, star_disjoint.
  - apply matcher_token.
  - intros x s' Hx. rewrite matcher_token. simpl.
    now rewrite (separator_not_token x Hx).
Qed.

(** The backtracking matcher on the vehicle id pattern does what the
    scanner does. *)
Lemma match_here_scan (s : jsstring) :
  RegExp.match_here vehicleIdPattern s = scan_here s.
Proof.
  unfold RegExp.match_here, vehicleIdPattern, scan_here.
  rewrite matcher_seq. unfold vehicle_label.
  rewrite matcher_alt, matcher_seq, !matcher_word.
  assert (Hid : match strip_word (js "id") s with
                | Some r => RegExp.matcher vehicle_token r None
                                           (fun s' cap' => Some (s', cap'))
                | None => None
                end
                = match strip_word (js "id") s with
                  | Some r => token_run (drop_while is_separator r)
                  | None => None
                  end).
  { destruct (strip_word (js "id") s); [apply matcher_vehicle_token | reflexivity]. }
  destruct (strip_word (js "vehicle") s) as [r|]; [|exact Hid].
  rewrite matcher_seq, matcher_star, star_disjoint.
  - rewrite matcher_word.
    destruct (strip_word (js "id") (drop_while is_white_space r)) as [r'|].
    + rewrite matcher_vehicle_token, Hid. reflexivity.
    + rewrite Hid. reflexivity.
  - intros x s' Hx. rewrite matcher_word.
    change (strip_word (js "id") (x :: s'))
      with (if RegExp.canonicalize x =? 73 then strip_word (js "d") s' else None).
    now rewrite (white_space_not_letter x 73 Hx) by lia.
Qed.

(** ** The search for the first match *)

Lemma exec_unfold (r : RegExp.t) (s : jsstring) :
  RegExp.exec r s
  = match RegExp.match_here r s with
    | Some res => Some res
    | None => match s with [] => None | _ :: s' => RegExp.exec r s' end
    end.
Proof. destruct s; reflexivity. Qed.

(** The match at the least index wins: a match at the start of [s] is the
    result for [pre ++ s] when no match starts inside [pre]. *)
Lemma exec_leftmost (r : RegExp.t) (s : jsstring) (res : RegExp.state) :
  RegExp.match_here r s = Some res ->
  forall pre,
    (forall p1 p2, pre = p1 ++ p2 -> p2 <> [] ->
                   RegExp.match_here r (p2 ++ s) = None) ->
    RegExp.exec r (pre ++ s) = Some res.
Proof.
  intros Hs pre. induction pre as [|x pre IH]; intros Hpre.
  - simpl. rewrite exec_unfold, Hs. reflexivity.
  - rewrite exec_unfold.
    rewrite (Hpre [] (x :: pre)) by (reflexivity || discriminate).
    simpl. apply IH. intros p1 p2 -> Hp2.
    apply (Hpre (x :: p1) p2); [reflexivity | assumption].
Qed.

Lemma exec_none (r : RegExp.t) (t : jsstring) :
  (forall p1 p2, t = p1 ++ p2 -> RegExp.match_here r p2 = None) ->
  RegExp.exec r t = None.
Proof.
  induction t as [|x t IH]; intros H.
  - simpl. rewrite (H [] []); reflexivity.
  - rewrite exec_unfold, (H [] (x :: t)) by reflexivity.
    apply IH. intros p1 p2 ->. apply (H (x :: p1) p2). reflexivity.
Qed.

Lemma exec_some (r : RegExp.t) (s : jsstring) (res : RegExp.state) :
  RegExp.match_here r s = Some res ->
  forall pre, exists res', RegExp.exec r (pre ++ s) = Some res'.
Proof.
  intros Hs pre. induction pre as [|x pre IH].
  - simpl. rewrite exec_unfold, Hs. eauto.
  - rewrite exec_unfold. destruct (RegExp.match_here r ((x :: pre) ++ s)); eauto.
Qed.

Lemma exec_match_here (r : RegExp.t) (t : jsstring) (res : RegExp.state) :
  RegExp.exec r t = Some res ->
  exists pre s, t = pre ++ s /\ RegExp.match_here r s = Some res.
Proof.
  induction t as [|x t IH]; rewrite exec_unfold.
  - destruct (RegExp.match_here r []) eqn:E; [|discriminate].
    intros [= <-]. exists [], []. auto.
  - destruct (RegExp.match_here r (x :: t)) eqn:E.
    + intros [= <-]. exists [], (x :: t). auto.
    + intros H. destruct (IH H) as (pre & s & -> & Hs).
      exists (x :: pre), s. auto.
Qed.

(** ** Texts with an id-like token *)

Lemma strip_id (s r : jsstring) :
  strip_word (js "id") s = Some r ->
  exists i d, s = i :: d :: r
              /\ RegExp.canonicalize i = 73 /\ RegExp.canonicalize d = 68.
Proof.
  intros H. destruct (strip_word_split _ _ _ H) as (w' & -> & Hw).
  destruct w' as [|i [|d [|? ?]]]; try discriminate.
  injection Hw as Hi Hd. exists i, d. auto.
Qed.

Lemma token_run_split (s rest : jsstring) (cap : option jsstring) :
  token_run s = Some (rest, cap) ->
  exists c tok, s = c :: tok ++ rest /\ is_token c = true
                /\ Forall (fun x => is_token x = true) tok
                /\ cap = Some (c :: tok).
Proof.
  destruct s as [|c post]; simpl; [discriminate|].
  destruct (is_token c) eqn:E; [|discriminate].
  intros [= <- <-]. exists c, (take_while is_token post).
  rewrite take_drop_while. auto using take_while_all.
Qed.

Lemma separators_token_id_like (pre : jsstring) (i d : Z) (r : jsstring)
      (res : RegExp.state) :
  RegExp.canonicalize i = 73 -> RegExp.canonicalize d = 68 ->
  token_run (drop_while is_separator r) = Some res ->
  id_like (pre ++ i :: d :: r).
Proof.
  intros Hi Hd H. destruct res as [rest cap].
  destruct (token_run_split _ _ _ H) as (c & tok & Hr & Hc & _ & _).
  exists pre, i, d, (take_while is_separator r), c, (tok ++ rest).
  rewrite <- Hr, take_drop_while. auto using take_while_all.
Qed.

(** A match of the pattern starts at an id-like token or at the label
    [vehicle] before one. *)
Lemma scan_here_id_like (s : jsstring) (res : RegExp.state) :
  scan_here s = Some res -> id_like s.
Proof.
  unfold scan_here. intros H.
  assert (Hid : forall res',
             match strip_word (js "id") s with
             | Some r => token_run (drop_while is_separator r)
             | None => None
             end = Some res' -> id_like s).
  { intros res'. destruct (strip_word (js "id") s) as [r|] eqn:E; [|discriminate].
    destruct (strip_id _ _ E) as (i & d & -> & Hi & Hd).
    apply (separators_token_id_like [] i d r res' Hi Hd). }
  destruct (strip_word (js "vehicle") s) as [r|] eqn:Ev; [|eauto].
  destruct (strip_word (js "id") (drop_while is_white_space r)) as [r'|] eqn:Ei;
    [|eauto].
  destruct (token_run (drop_while is_separator r')) as [res'|] eqn:Et; [|eauto].
  destruct (strip_word_split _ _ _ Ev) as (w & -> & _).
  destruct (strip_id _ _ Ei) as (i & d & Hr & Hi & Hd).
  rewrite <- (take_drop_while is_white_space r), Hr, app_assoc.
  apply (separators_token_id_like _ i d r' res' Hi Hd Et).
Qed.

(** An id-like token at the start of the text is matched there. *)
Lemma id_like_scan_here (i d : Z) (sep : jsstring) (c : Z) (post : jsstring) :
  RegExp.canonicalize i = 73 -> RegExp.canonicalize d = 68 ->
  Forall (fun x => is_separator x = true) sep ->
  is_token c = true ->
  scan_here (i :: d :: sep ++ c :: post)
  = Some (drop_while is_token post, Some (c :: take_while is_token post)).
Proof.
  intros Hi Hd Hsep Hc. unfold scan_here.
  change (strip_word (js "vehicle") (i :: d :: sep ++ c :: post))
    with (if RegExp.canonicalize i =? 86
          then strip_word (js "ehicle") (d :: sep ++ c :: post) else None).
  change (strip_word (js "id") (i :: d :: sep ++ c :: post))
    with (if RegExp.canonicalize i =? 73
          then if RegExp.canonicalize d =? 68 then Some (sep ++ c :: post) else None
          else None).
  rewrite Hi, Hd. simpl Z.eqb. cbv iota.
  rewrite drop_while_run; [simpl; now rewrite Hc | assumption |].
  destruct (is_separator c) eqn:E; [|reflexivity].
  apply separator_not_token in E. congruence.
Qed.

(** The pattern matches exactly the texts with an id-like token. *)
Lemma exec_id_like (t : jsstring) :
  id_like t <-> exists res, RegExp.exec vehicleIdPattern t = Some res.
Proof.
  split.
  - intros (pre & i & d & sep & c & post & -> & Hi & Hd & Hsep & Hc).
    eapply exec_some. rewrite match_here_scan.
    apply id_like_scan_here; assumption.
  - intros (res & H). destruct (exec_match_here _ _ _ H) as (pre & s & -> & Hs).
    rewrite match_here_scan in Hs. apply scan_here_id_like in Hs.
    destruct Hs as (pre' & i & d & sep & c & post & -> & Hrest).
    exists (pre ++ pre'), i, d, sep, c, post. rewrite <- app_assoc. auto.
Qed.

Lemma scan_here_capture (s rest : jsstring) (cap : option jsstring) :
  scan_here s = Some (rest, cap) ->
  exists c tok, cap = Some (c :: tok)
                /\ Forall (fun x => is_token x = true) (c :: tok).
Proof.
  unfold scan_here. intros H.
  assert (G : forall s', token_run s' = Some (rest, cap) ->
                         exists c tok, cap = Some (c :: tok)
                                       /\ Forall (fun x => is_token x = true) (c :: tok)).
  { intros s' Hs. destruct (token_run_split _ _ _ Hs) as (c & tok & _ & Hc & Ht & ->).
    exists c, tok. auto. }
  destruct (strip_word (js "vehicle") s) as [r|].
  - destruct (strip_word (js "id") (drop_while is_white_space r)) as [r'|].
    + destruct (token_run (drop_while is_separator r')) as [res|] eqn:E.
      * injection H as ->. eauto.
      * destruct (strip_word (js "id") s); [eauto | discriminate].
    + destruct (strip_word (js "id") s); [eauto | discriminate].
  - destruct (strip_word (js "id") s); [eauto | discriminate].
Qed.

Lemma stateDelta_exec (t : jsstring) :
  stateDelta (Some t)
  = match RegExp.exec vehicleIdPattern t with
    | Some (_, group1) => Object [(js "vehicle_id", of_string group1)]
    | None => Null
    end.
Proof.
  unfold stateDelta, vehicleIdMatch. destruct t as [|x t]; reflexivity.
Qed.

(** A call that passes validation issues exactly one request. *)
Lemma sendMessageStream_one_request (w : World) (m : Message) :
  truthy (of_string (sessionId m)) = true ->
  truthy (of_string (text m)) || truthy (inlineData m) = true ->
  fst (run w (sendMessageStream m)) = [run_sse m].
Proof.
  intros Hs Hm. unfold sendMessageStream. rewrite Hs. simpl negb. cbv iota.
  apply orb_true_iff in Hm.
  replace (negb (truthy (of_string (text m))) && negb (truthy (inlineData m)))
    with false by (destruct Hm as [-> | ->]; simpl; auto using andb_false_r).
  rewrite run_fetch. destruct (w (run_sse m)) as [res|e]; [|reflexivity].
  simpl. destruct (ok res); simpl; [|reflexivity].
  destruct (res_body res) as [b|]; [|reflexivity].
  destruct (read_body b); reflexivity.
Qed.

(** Every text with an id-like token gives a state delta, with a token
    of at least one character. *)
Lemma id_like_gives_state_delta (t : jsstring) :
  id_like t ->
  exists c tok,
    stateDelta (Some t) = Object [(js "vehicle_id", Str (c :: tok))]
    /\ Forall (fun x => is_token x = true) (c :: tok).
Proof.
  intros Ht. apply exec_id_like in Ht as ([rest cap] & H).
  rewrite stateDelta_exec, H.
  destruct (exec_match_here _ _ _ H) as (pre & s & _ & Hs).
  rewrite match_here_scan in Hs.
  destruct (scan_here_capture _ _ _ Hs) as (c & tok & -> & Htok).
  exists c, tok. auto.
Qed.

(** The payload carries the state delta of the text. *)
Lemma payload_stateDelta (m : Message) :
  get (js "stateDelta") (payload m) = stateDelta (text m).
Proof. reflexivity. Qed.

(** C8, as stated, fails: the text [video] holds no colon and no white
    space, so neither [id: <token>] nor [vehicle id: <token>], and the
    request that is issued carries the state delta
    [{ vehicle_id: "eo" }]. *)
Lemma unlabelled_text_has_state_delta :
  Forall (fun c => is_separator c = false) (js "video")
  /\ fst (run not_found (sendMessageStream video)) = [run_sse video]
  /\ body (run_sse video) = JsonBody (payload video)
  /\ get (js "stateDelta") (payload video)
     = Object [(js "vehicle_id", Str (js "eo"))].
Proof.
  split; [repeat constructor|].
  split; [vm_compute; reflexivity|].
  split; [reflexivity|].
  vm_compute. reflexivity.
Qed.

(** C8, amended. A call that passes validation issues one request, whose
    body is the payload. For the text [vehicle id: XY-12 please check]
    the payload's stateDelta is [{ vehicle_id: "XY-12" }]. The stateDelta
    is null when the text is absent, and when the text holds no id-like
    token: the letters [id], each in either case, then any number of
    colons and white space characters, possibly none, then a letter, digit
    or hyphen. For every text that holds one, the stateDelta is
    [{ vehicle_id: token }] with a nonempty token of letters, digits and
    hyphens. One match is taken, the one at the least index: a match at
    the start of [s] is the result for [pre ++ s] when no match starts
    inside [pre]. *)
Theorem vehicle_id_state_delta :
  (forall (w : World) (m : Message),
      truthy (of_string (sessionId m)) = true ->
      truthy (of_string (text m)) || truthy (inlineData m) = true ->
      fst (run w (sendMessageStream m)) = [run_sse m]
      /\ body (run_sse m) = JsonBody (payload m))
  /\ (forall m : Message,
         text m = Some (js "vehicle id: XY-12 please check") ->
         get (js "stateDelta") (payload m)
         = Object [(js "vehicle_id", Str (js "XY-12"))])
  /\ (forall m : Message,
         text m = None -> get (js "stateDelta") (payload m) = Null)
  /\ (forall (m : Message) (t : jsstring),
         text m = Some t -> ~ id_like t ->
         get (js "stateDelta") (payload m) = Null)
  /\ (forall (m : Message) (t : jsstring),
         text m = Some t -> id_like t ->
         exists c tok,
           get (js "stateDelta") (payload m)
           = Object [(js "vehicle_id", Str (c :: tok))]
           /\ Forall (fun x => is_token x = true) (c :: tok))
  /\ (forall (m : Message) (pre s rest tok : jsstring),
         text m = Some (pre ++ s) ->
         RegExp.match_here vehicleIdPattern s = Some (rest, Some tok) ->
         (forall p1 p2, pre = p1 ++ p2 -> p2 <> [] ->
                        RegExp.match_here vehicleIdPattern (p2 ++ s) = None) ->
         get (js "stateDelta") (payload m) = Object [(js "vehicle_id", Str tok)])
  /\ (forall m : Message,
         text m = Some (js "My Vehicle ID:ab-1, id: zz") ->
         get (js "stateDelta") (payload m)
         = Object [(js "vehicle_id", Str (js "ab-1"))])
  /\ (forall m : Message,
         text m = Some (js "id: A1 id: B2") ->
         get (js "stateDelta") (payload m)
         = Object [(js "vehicle_id", Str (js "A1"))]).
Proof.
  split; [intros w m Hs Hm; split;
          [apply sendMessageStream_one_request; assumption | reflexivity]|].
  split; [intros m H; rewrite payload_stateDelta, H; vm_compute; reflexivity|].
  split; [intros m H; rewrite payload_stateDelta, H; reflexivity|].
  split; [|split; [|split; [|split; intros m H; rewrite payload_stateDelta, H;
                             vm_compute; reflexivity]]].
  - intros m t H Ht. rewrite payload_stateDelta, H, stateDelta_exec.
    destruct (RegExp.exec vehicleIdPattern t) as [res|] eqn:E; [|reflexivity].
    exfalso. apply Ht, exec_id_like. eauto.
  - intros m t H Ht. rewrite payload_stateDelta, H.
    apply id_like_gives_state_delta, Ht.
  - intros m pre s rest tok H Hs Hpre.
    rewrite payload_stateDelta, H, stateDelta_exec.
    rewrite (exec_leftmost _ _ _ Hs pre Hpre). reflexivity.
Qed.

Lemma vehicle_id_state_delta_witness :
  (fst (run not_found
          (sendMessageStream
             (mkMessage (Some (js "s1")) (Some (js "vehicle id: XY-12 please check"))
                        Null)))
   = [run_sse (mkMessage (Some (js "s1")) (Some (js "vehicle id: XY-12 please check"))
                         Null)]
   /\ body (run_sse (mkMessage (Some (js "s1"))
                               (Some (js "vehicle id: XY-12 please check")) Null))
      = JsonBody (payload (mkMessage (Some (js "s1"))
                                     (Some (js "vehicle id: XY-12 please check")) Null)))
  /\ get (js "stateDelta")
         (payload (mkMessage (Some (js "s1"))
                             (Some (js "vehicle id: XY-12 please check")) Null))
     = Object [(js "vehicle_id", Str (js "XY-12"))]
  /\ get (js "stateDelta")
         (payload (mkMessage (Some (js "s1"))
                             (Some (js "hello world, no token here: ")) Null))
     = Null
  /\ get (js "stateDelta")
         (payload (mkMessage (Some (js "s1")) (Some (js "see id: A1 id: B2")) Null))
     = Object [(js "vehicle_id", Str (js "A1"))].
Proof.
  destruct vehicle_id_state_delta as (Hreq & Hex & _ & Hnone & _ & Hfirst & _).
  split; [apply Hreq; reflexivity|].
  split; [apply Hex; reflexivity|].
  split.
  - apply (Hnone _ (js "hello world, no token here: ")); [reflexivity|].
    intros H. apply exec_id_like in H as [res H].
    vm_compute in H. discriminate.
  - apply (Hfirst _ (js "see ") (js "id: A1 id: B2") (js " id: B2") (js "A1")).
    + reflexivity.
    + vm_compute. reflexivity.
    + intros p1 p2 H Hp2.
      change (js "see ") with [115; 101; 101; 32] in H.
      do 4 (destruct p1 as [|? p1];
            [simpl in H; subst p2; vm_compute; reflexivity | injection H as _ H]).
      destruct p1; [simpl in H; congruence | discriminate].
Defined.

(** C9. The separator between label and token may be empty, so the
    letters [id] inside a word count as a label: the text [slide], which
    holds no colon and so neither [id:] nor [vehicle id:], gives the state
    delta [{ vehicle_id: "e" }], and that is what the request carries. In
    general [id] followed at once by a letter, digit or hyphen, anywhere
    in the text, gives a state delta. *)
Theorem bare_id_letters_give_state_delta :
  ~ In 58 (js "slide")
  /\ stateDelta (Some (js "slide")) = Object [(js "vehicle_id", Str (js "e"))]
  /\ (forall w : World, fst (run w (sendMessageStream slide)) = [run_sse slide])
  /\ body (run_sse slide) = JsonBody (payload slide)
  /\ get (js "stateDelta") (payload slide)
     = Object [(js "vehicle_id", Str (js "e"))]
  /\ (forall (pre : jsstring) (c : Z) (post : jsstring),
         is_token c = true ->
         exists ch tok,
           stateDelta (Some (pre ++ js "id" ++ c :: post))
           = Object [(js "vehicle_id", Str (ch :: tok))]).
Proof.
  split; [vm_compute; intuition discriminate|].
  split; [vm_compute; reflexivity|].
  split; [intros w; apply sendMessageStream_one_request; reflexivity|].
  split; [reflexivity|].
  split; [vm_compute; reflexivity|].
  intros pre c post Hc.
  destruct id_like_gives_state_delta
    with (t := pre ++ js "id" ++ c :: post) as (ch & tok & H & _).
  - exists pre, 105, 100, [], c, post. repeat split; auto.
  - eauto.
Qed.

Lemma bare_id_letters_give_state_delta_witness :
  exists ch tok,
    stateDelta (Some (js "the widget broke"))
    = Object [(js "vehicle_id", Str (ch :: tok))].
Proof.
  destruct bare_id_letters_give_state_delta as (_ & _ & _ & _ & _ & H).
  apply (H (js "the w") 103 (js "et broke")). reflexivity.
Defined.

(* ================================================================== *)
(** * JSON.parse never runs out of fuel *)
(* ================================================================== *)

Lemma skip_ws_length (s : jsstring) : (length (JSON.skip_ws s) <= length s)%nat.
Proof.
  induction s as [|c s IH]; simpl; [lia|].
  destruct (JSON.is_ws c); simpl; lia.
Qed.

Lemma skip_ws_cons (s r : jsstring) (c : Z) :
  JSON.skip_ws s = c :: r -> (length r < length s)%nat.
Proof.
  intros H. pose proof (skip_ws_length s) as L. rewrite H in L. simpl in L. lia.
Qed.

Lemma chars_length (n : nat) :
  forall s acc str r,
    (length s <= n)%nat ->
    JSON.chars s acc = Some (str, r) -> (length r < length s)%nat.
Proof.
  induction n as [|n IH]; intros s acc str r Hn H.
  - destruct s; [discriminate | simpl in Hn; lia].
  - destruct s as [|c s]; [discriminate|]. simpl in Hn, H.
    destruct (c =? 34).
    + injection H as _ <-. simpl. lia.
    + destruct (c =? 92).
      * destruct s as [|e r1]; [discriminate|].
        destruct (e =? 117).
        -- destruct r1 as [|h1 [|h2 [|h3 [|h4 r2]]]]; try discriminate.
           destruct (JSON.hex_digit h1), (JSON.hex_digit h2),
             (JSON.hex_digit h3), (JSON.hex_digit h4); try discriminate.
           apply IH in H; simpl in *; lia.
        -- destruct (JSON.escape e); [|discriminate].
           apply IH in H; simpl in *; lia.
      * destruct (c <? 32); [discriminate|].
        apply IH in H; simpl in *; lia.
Qed.

Lemma digits_length (s : jsstring) :
  forall acc n a n' r,
    JSON.digits s acc n = (a, n', r) -> (length r <= length s)%nat.
Proof.
  induction s as [|c s IH]; intros acc n a n' r H; simpl in H.
  - injection H as _ _ <-. simpl. lia.
  - destruct (JSON.is_digit c).
    + apply IH in H. simpl. lia.
    + injection H as _ _ <-. lia.
Qed.

Lemma exponent_length negative m nd fd (s : jsstring) (v : value) (r : jsstring) :
  JSON.exponent negative m nd fd s = JSON.Ok v r -> (length r <= length s)%nat.
Proof.
  unfold JSON.exponent. destruct s as [|c s]; [intros [= _ <-]; lia|].
  destruct ((c =? 101) || (c =? 69)); [|intros [= _ <-]; lia].
  assert (G : forall sign r1,
             (length r1 <= length s)%nat ->
             (let '(e, n, r2) := JSON.digits r1 0 0 in
              if n =? 0 then JSON.SyntaxError
              else JSON.Ok (JSON.make_number negative m (sign * e - fd) nd) r2)
             = JSON.Ok v r -> (length r <= length (c :: s))%nat).
  { intros sign r1 L. destruct (JSON.digits r1 0 0) as [[e n] r2] eqn:E.
    apply digits_length in E. destruct (n =? 0); [discriminate|].
    intros [= _ <-]. simpl. lia. }
  destruct s as [|x s']; [apply (G 1 []); simpl; lia|].
  destruct (x =? 45); [apply G; simpl; lia|].
  destruct (x =? 43); apply G; simpl; lia.
Qed.

Lemma fraction_length negative m nd (s : jsstring) (v : value) (r : jsstring) :
  JSON.fraction negative m nd s = JSON.Ok v r -> (length r <= length s)%nat.
Proof.
  unfold JSON.fraction. destruct s as [|c s]; [apply exponent_length|].
  destruct (c =? 46); [|apply exponent_length].
  destruct (JSON.digits s m 0) as [[m' n] r1] eqn:E. apply digits_length in E.
  destruct (n =? 0); [discriminate|].
  intros H. apply exponent_length in H. simpl. lia.
Qed.

Lemma unsigned_number_length negative (s : jsstring) (v : value) (r : jsstring) :
  JSON.unsigned_number negative s = JSON.Ok v r -> (length r < length s)%nat.
Proof.
  unfold JSON.unsigned_number. destruct s as [|c s]; [discriminate|].
  destruct (c =? 48).
  - intros H. apply fraction_length in H. simpl. lia.
  - destruct (JSON.is_digit c) eqn:Ed; [|discriminate].
    simpl JSON.digits. rewrite Ed.
    destruct (JSON.digits s _ _) as [[m n] r1] eqn:E.
    apply digits_length in E. intros H. apply fraction_length in H. simpl. lia.
Qed.

Lemma literal_length (s word : jsstring) (v v' : value) (r : jsstring) :
  word <> [] -> (length s > 0)%nat ->
  JSON.literal s word v = JSON.Ok v' r -> (length r < length s)%nat.
Proof.
  unfold JSON.literal. intros Hw Hs. destruct (startsWith s word); [|discriminate].
  intros [= _ <-]. destruct word as [|c word]; [congruence|].
  destruct s as [|x s]; [simpl in Hs; lia|].
  simpl. pose proof (length_skipn (length word) s). lia.
Qed.

Section Fuel.

#[local] Arguments JSON.unsigned_number : simpl never.
#[local] Arguments JSON.literal : simpl never.
#[local] Arguments JSON.chars : simpl never.
#[local] Arguments JSON.is_digit : simpl never.

(** Whatever is parsed, some input is consumed. *)
Lemma parse_progress (fuel : nat) :
  (forall s v r, JSON.parse_value fuel s = JSON.Ok v r -> (length r < length s)%nat)
  /\ (forall s acc v r,
         JSON.parse_elements fuel s acc = JSON.Ok v r -> (length r < length s)%nat)
  /\ (forall s acc v r,
         JSON.parse_members fuel s acc = JSON.Ok v r -> (length r < length s)%nat).
Proof.
  induction fuel as [|f (IHv & IHe & IHm)];
    [repeat split; intros; discriminate|].
  repeat split.
  - intros s v r H. simpl in H.
    destruct (JSON.skip_ws s) as [|c r0] eqn:Es; [discriminate|].
    apply skip_ws_cons in Es.
    destruct (c =? 123).
    { destruct (JSON.skip_ws r0) as [|c' r'] eqn:Er; [discriminate|].
      apply skip_ws_cons in Er.
      destruct (c' =? 125); [injection H as _ <-; lia|].
      apply IHm in H. lia. }
    destruct (c =? 91).
    { destruct (JSON.skip_ws r0) as [|c' r'] eqn:Er; [discriminate|].
      apply skip_ws_cons in Er.
      destruct (c' =? 93); [injection H as _ <-; lia|].
      apply IHe in H. lia. }
    destruct (c =? 34).
    { destruct (JSON.chars r0 []) as [[str r']|] eqn:Ec; [|discriminate].
      apply (chars_length (length r0)) in Ec; [|lia].
      injection H as _ <-. lia. }
    destruct (c =? 45); [apply unsigned_number_length in H; lia|].
    destruct (JSON.is_digit c);
      [apply unsigned_number_length in H; simpl in H; lia|].
    destruct (c =? 116);
      [apply literal_length in H; simpl in *; try lia; discriminate|].
    destruct (c =? 102);
      [apply literal_length in H; simpl in *; try lia; discriminate|].
    destruct (c =? 110);
      [apply literal_length in H; simpl in *; try lia; discriminate|].
    discriminate.
  - intros s acc v r H. simpl in H.
    destruct (JSON.parse_value f s) as [v0 r0| |] eqn:Ev; try discriminate.
    apply IHv in Ev.
    destruct (JSON.skip_ws r0) as [|c r'] eqn:Er; [discriminate|].
    apply skip_ws_cons in Er.
    destruct (c =? 44); [apply IHe in H; lia|].
    destruct (c =? 93); [injection H as _ <-; lia | discriminate].
  - intros s acc v r H. simpl in H.
    destruct (JSON.skip_ws s) as [|q r0] eqn:Es; [discriminate|].
    apply skip_ws_cons in Es.
    destruct (q =? 34); [|discriminate].
    destruct (JSON.chars r0 []) as [[key r1]|] eqn:Ec; [|discriminate].
    apply (chars_length (length r0)) in Ec; [|lia].
    destruct (JSON.skip_ws r1) as [|colon r2] eqn:E1; [discriminate|].
    apply skip_ws_cons in E1.
    destruct (colon =? 58); [|discriminate].
    destruct (JSON.parse_value f r2) as [v0 r3| |] eqn:Ev; try discriminate.
    apply IHv in Ev.
    destruct (JSON.skip_ws r3) as [|c r4] eqn:E3; [discriminate|].
    apply skip_ws_cons in E3.
    destruct (c =? 44); [apply IHm in H; lia|].
    destruct (c =? 125); [injection H as _ <-; lia | discriminate].
Qed.

Lemma exponent_fuel negative m nd fd (s : jsstring) :
  JSON.exponent negative m nd fd s <> JSON.OutOfFuel.
Proof.
  unfold JSON.exponent. destruct s as [|c s]; [discriminate|].
  destruct ((c =? 101) || (c =? 69)); [|discriminate].
  destruct (match s with
            | [] => (1, s)
            | x :: r' => if x =? 45 then (-1, r')
                         else if x =? 43 then (1, r') else (1, s)
            end) as [sign r1].
  destruct (JSON.digits r1 0 0) as [[e n] r2].
  destruct (n =? 0); discriminate.
Qed.

Lemma fraction_fuel negative m nd (s : jsstring) :
  JSON.fraction negative m nd s <> JSON.OutOfFuel.
Proof.
  unfold JSON.fraction. destruct s as [|c s]; [apply exponent_fuel|].
  destruct (c =? 46); [|apply exponent_fuel].
  destruct (JSON.digits s m 0) as [[m' n] r1].
  destruct (n =? 0); [discriminate | apply exponent_fuel].
Qed.

Lemma unsigned_number_fuel negative (s : jsstring) :
  JSON.unsigned_number negative s <> JSON.OutOfFuel.
Proof.
  unfold JSON.unsigned_number. destruct s as [|c s]; [discriminate|].
  destruct (c =? 48); [apply fraction_fuel|].
  destruct (JSON.is_digit c); [|discriminate].
  destruct (JSON.digits (c :: s) 0 0) as [[m n] r1]. apply fraction_fuel.
Qed.

Lemma literal_fuel (s word : jsstring) (v : value) :
  JSON.literal s word v <> JSON.OutOfFuel.
Proof. unfold JSON.literal. destruct (startsWith s word); discriminate. Qed.

(** Twice the length of the input, and one more, is fuel enough. *)
Lemma parse_fuel (fuel : nat) :
  (forall s, (2 * length s + 1 <= fuel)%nat ->
             JSON.parse_value fuel s <> JSON.OutOfFuel)
  /\ (forall s acc, (2 * length s + 2 <= fuel)%nat ->
                    JSON.parse_elements fuel s acc <> JSON.OutOfFuel)
  /\ (forall s acc, (2 * length s + 2 <= fuel)%nat ->
                    JSON.parse_members fuel s acc <> JSON.OutOfFuel).
Proof.
  induction fuel as [|f (IHv & IHe & IHm)]; [repeat split; intros; lia|].
  destruct (parse_progress f) as (Pv & Pe & Pm).
  repeat split.
  - intros s Hf. simpl.
    destruct (JSON.skip_ws s) as [|c r0] eqn:Es; [discriminate|].
    apply skip_ws_cons in Es.
    destruct (c =? 123).
    { destruct (JSON.skip_ws r0) as [|c' r']; [discriminate|].
      destruct (c' =? 125); [discriminate | apply IHm; lia]. }
    destruct (c =? 91).
    { destruct (JSON.skip_ws r0) as [|c' r']; [discriminate|].
      destruct (c' =? 93); [discriminate | apply IHe; lia]. }
    destruct (c =? 34).
    { destruct (JSON.chars r0 []) as [[str r']|]; discriminate. }
    destruct (c =? 45); [apply unsigned_number_fuel|].
    destruct (JSON.is_digit c); [apply unsigned_number_fuel|].
    destruct (c =? 116); [apply literal_fuel|].
    destruct (c =? 102); [apply literal_fuel|].
    destruct (c =? 110); [apply literal_fuel | discriminate].
  - intros s acc Hf. simpl.
    destruct (JSON.parse_value f s) as [v0 r0| |] eqn:Ev; [|discriminate|].
    + apply Pv in Ev.
      destruct (JSON.skip_ws r0) as [|c r'] eqn:Er; [discriminate|].
      apply skip_ws_cons in Er.
      destruct (c =? 44); [apply IHe; lia|].
      destruct (c =? 93); discriminate.
    + exfalso. revert Ev. apply IHv. lia.
  - intros s acc Hf. simpl.
    destruct (JSON.skip_ws s) as [|q r0] eqn:Es; [discriminate|].
    apply skip_ws_cons in Es.
    destruct (q =? 34); [|discriminate].
    destruct (JSON.chars r0 []) as [[key r1]|] eqn:Ec; [|discriminate].
    apply (chars_length (length r0)) in Ec; [|lia].
    destruct (JSON.skip_ws r1) as [|colon r2] eqn:E1; [discriminate|].
    apply skip_ws_cons in E1.
    destruct (colon =? 58); [|discriminate].
    destruct (JSON.parse_value f r2) as [v0 r3| |] eqn:Ev; [|discriminate|].
    + apply Pv in Ev.
      destruct (JSON.skip_ws r3) as [|c r4] eqn:E3; [discriminate|].
      apply skip_ws_cons in E3.
      destruct (c =? 44); [apply IHm; lia|].
      destruct (c =? 125); discriminate.
    + exfalso. revert Ev. apply IHv. lia.
Qed.

End Fuel.

(** [JSON.parse] always decides: the parser ends with a value or with a
    syntax error, never for want of fuel, so [None] is a SyntaxError. *)
Lemma parse_decides (text : jsstring) :
  JSON.parse_value (2 * length text + 1) text <> JSON.OutOfFuel.
Proof. apply parse_fuel. lia. Qed.

Lemma parse_none_is_syntax_error (text : jsstring) :
  JSON.parse text = None <->
  JSON.parse_value (2 * length text + 1) text = JSON.SyntaxError
  \/ exists v c rest,
      JSON.parse_value (2 * length text + 1) text = JSON.Ok v rest
      /\ JSON.skip_ws rest = c :: (tl (JSON.skip_ws rest)).
Proof.
  unfold JSON.parse. pose proof (parse_decides text) as D.
  destruct (JSON.parse_value (2 * length text + 1) text) as [v rest| |].
  - destruct (JSON.skip_ws rest) as [|c r] eqn:E; split.
    + discriminate.
    + intros [H|(v' & c & rest' & [= _ <-] & H)]; [discriminate|].
      rewrite E in H. discriminate.
    + intros _. right. exists v, c, rest. rewrite E. auto.
    + reflexivity.
  - split; auto.
  - congruence.
Qed.

(* ================================================================== *)
(** * Further properties of the client *)
(* ================================================================== *)

(** X1. The output depends on the bytes of the stream only, not on where
    the transport cut them into chunks. *)
Theorem chunking_is_irrelevant
        (chunks chunks' : list (list Z)) (end_of_stream : option Exn) :
  concat chunks = concat chunks' ->
  read_body (mkBody chunks end_of_stream) = read_body (mkBody chunks' end_of_stream).
Proof.
  intros H. unfold read_body. simpl. rewrite !read_loop_concat, H. reflexivity.
Qed.

Lemma chunking_is_irrelevant_witness :
  read_body (mkBody [[226; 130]; [172; 10; 123]; [125; 10]] None)
  = read_body (mkBody [[226; 130; 172; 10; 123; 125; 10]] None).
Proof. apply chunking_is_irrelevant. reflexivity. Defined.

(** X2. Both loops of the decoder end: the inner loop stops within as
    many rounds as the buffer has characters and leaves a buffer without
    a newline, and [JSON.parse] decides every text within the fuel it is
    given. *)
Theorem decoding_terminates (buffer0 : jsstring) (out : list value) :
  (exists r, drain_fuel (length buffer0) buffer0 out = Some r
             /\ drain buffer0 out = r
             /\ ~ In LF (fst r))
  /\ JSON.parse_value (2 * length buffer0 + 1) buffer0 <> JSON.OutOfFuel.
Proof.
  split; [|apply parse_decides].
  destruct (drain_fuel_total (length buffer0) buffer0 out) as [r Hr]; [lia|].
  exists r. assert (Hd : drain buffer0 out = r) by (unfold drain; now rewrite Hr).
  repeat split; [assumption | assumption |].
  rewrite <- Hd. apply (drain_buffer (length buffer0)). lia.
Qed.

(** X3. Contents are only ever appended: what the loop has collected
    after some chunks is a prefix of what it has collected after more
    chunks, so fragments keep their order of arrival and none is removed. *)
Theorem contents_only_grow (chunks more : list (list Z)) :
  exists added,
    contents (read_loop (chunks ++ more)) = contents (read_loop chunks) ++ added.
Proof.
  unfold read_loop. rewrite fold_left_app.
  generalize (fold_left read_chunk chunks start) as st.
  induction more as [|ch more IH]; intros st; simpl.
  - exists []. now rewrite app_nil_r.
  - destruct (IH (read_chunk st ch)) as [added ->].
    unfold read_chunk.
    destruct (TextDecoder.decode_stream (decoder st) ch) as [d decoded].
    rewrite (drain_appends (length (buffer st ++ decoded))) by lia.
    simpl. rewrite <- app_assoc. eauto.
Qed.

(** X4. Every operation issues exactly one request when it issues any:
    the session and upload operations always one, [sendMessageStream] one
    when the message passes validation and none otherwise. *)
Theorem one_request_per_call (w : World) (id : jsstring) (file : File) (m : Message) :
  fst (run w listSessions) = [listSessions_request]
  /\ fst (run w createSession) = [createSession_request]
  /\ fst (run w (deleteSession id)) = [deleteSession_request id]
  /\ fst (run w (getSession id)) = [getSession_request id]
  /\ fst (run w (uploadFile file)) = [uploadFile_request [(js "file", file)]]
  /\ fst (run w (sendMessageStream m))
     = (if truthy (of_string (sessionId m))
           && (truthy (of_string (text m)) || truthy (inlineData m))
        then [run_sse m] else []).
Proof.
  split; [destruct (listSessions_returns w) as [v ->]; reflexivity|].
  split; [unfold createSession; rewrite run_fetch;
          destruct (w _) as [res|e]; [destruct (ok res)|]; reflexivity|].
  split; [unfold deleteSession; rewrite run_fetch;
          destruct (w _) as [res|e]; [destruct (ok res)|]; reflexivity|].
  split; [unfold getSession; rewrite run_fetch;
          destruct (w _) as [res|e]; [destruct (ok res)|]; reflexivity|].
  split; [unfold uploadFile; cbv zeta; rewrite run_fetch;
          destruct (w _) as [res|e]; [destruct (ok res)|]; reflexivity|].
  destruct (truthy (of_string (sessionId m))) eqn:Es;
    [|unfold sendMessageStream; rewrite Es; reflexivity].
  destruct (truthy (of_string (text m)) || truthy (inlineData m)) eqn:Em.
  - apply sendMessageStream_one_request; assumption.
  - unfold sendMessageStream. rewrite Es.
    apply orb_false_iff in Em as [-> ->]. reflexivity.
Qed.

(** X5. End to end: a call that passes validation, answered by a
    successful response whose body is the two records of the example in
    any chunking, issues one request and returns ["a", "b"]. *)
Theorem sendMessageStream_returns_fragments
        (w : World) (m : Message) (res : Response) (chunks : list (list Z)) :
  truthy (of_string (sessionId m)) = true ->
  truthy (of_string (text m)) || truthy (inlineData m) = true ->
  w (run_sse m) = Resolved res ->
  ok res = true ->
  res_body res = Some (mkBody chunks None) ->
  concat chunks = record_a ++ record_b ->
  run w (sendMessageStream m)
  = ([run_sse m], Return [Str (js "a"); Str (js "b")]).
Proof.
  intros Hs Hm Hw Hok Hb Hc.
  rewrite (sendMessageStream_reads w m res _ Hs Hm Hw Hok Hb).
  rewrite read_body_ends. unfold stream_text. rewrite Hc.
  f_equal.
Qed.

Lemma sendMessageStream_returns_fragments_witness :
  run (fun _ => Resolved (mkResponse 200 (Some (mkBody [record_a; record_b] None))))
      (sendMessageStream (mkMessage (Some (js "s1")) (Some (js "hello")) Null))
  = ([run_sse (mkMessage (Some (js "s1")) (Some (js "hello")) Null)],
     Return [Str (js "a"); Str (js "b")]).
Proof.
  apply (sendMessageStream_returns_fragments
           _ _ (mkResponse 200 (Some (mkBody [record_a; record_b] None)))
           [record_a; record_b]); reflexivity.
Defined.

(* ================================================================== *)
(** * The reading loop, line by line *)
(* ================================================================== *)

Lemma split_lines_done (b : jsstring) : ~ In LF b -> split_lines b = ([], b).
Proof.
  induction b as [|x b IH]; intros H; simpl; [reflexivity|].
  rewrite IH by (simpl in H; tauto).
  destruct (Z.eqb_spec x LF) as [->|_]; [exfalso; simpl in H; tauto | reflexivity].
Qed.

Lemma split_lines_line (l r : jsstring) :
  ~ In LF l ->
  split_lines (l ++ LF :: r)
  = (l :: fst (split_lines r), snd (split_lines r)).
Proof.
  induction l as [|x l IH]; intros H; simpl.
  - destruct (split_lines r). reflexivity.
  - rewrite IH by (simpl in H; tauto). simpl.
    destruct (Z.eqb_spec x LF) as [->|_]; [exfalso; simpl in H; tauto | reflexivity].
Qed.

(** The inner loop, read as a function of the text: the buffer it leaves
    is the text after the last newline, and the contents it adds are the
    fragments of the lines, in the order of the lines. *)
Lemma drain_split_lines (n : nat) :
  forall (b : jsstring) (c : list value),
    (length b <= n)%nat ->
    drain b c
    = (snd (split_lines b), c ++ flat_map fragment_of (fst (split_lines b))).
Proof.
  induction n as [|n IH]; intros b c Hn.
  - destruct b; [|simpl in Hn; lia].
    rewrite drain_done by (simpl; auto). simpl. now rewrite app_nil_r.
  - destruct (first_occurrence LF b) as [H|(l & r & -> & H)].
    + rewrite drain_done, split_lines_done by assumption.
      simpl. now rewrite app_nil_r.
    + rewrite drain_line, split_lines_line by assumption.
      rewrite length_app in Hn. simpl in Hn.
      rewrite IH by lia. simpl.
      rewrite (process_line_appends l c), <- app_assoc. reflexivity.
Qed.

Lemma fragment_of_short (l : jsstring) : (length (fragment_of l) <= 1)%nat.
Proof.
  unfold fragment_of, process_line. destruct (trim l); [simpl; lia|].
  destruct (JSON.parse _) as [parsed|]; [|simpl; lia].
  destruct (truthy (get_content parsed)); simpl; lia.
Qed.

(** X6. The reading loop is a map over lines: when the stream ends, the
    result is the fragments of the newline-terminated lines of the decoded
    text, line by line in order, each line giving none or one; the text
    after the last newline is what the buffer still holds. *)
Theorem reading_is_line_by_line (chunks : list (list Z)) :
  read_body (mkBody chunks None)
  = Return (flat_map fragment_of (fst (split_lines (stream_text chunks))))
  /\ buffer (read_loop chunks) = snd (split_lines (stream_text chunks))
  /\ Forall (fun l => (length (fragment_of l) <= 1)%nat)
            (fst (split_lines (stream_text chunks))).
Proof.
  rewrite read_body_ends. destruct (read_loop_text chunks) as [-> _].
  rewrite (drain_split_lines (length (stream_text chunks))) by lia.
  repeat split. apply Forall_forall. intros l _. apply fragment_of_short.
Qed.

Lemma split_lines_count (s : jsstring) :
  length (fst (split_lines s)) = count_occ Z.eq_dec s LF.
Proof.
  induction s as [|x s IH]; simpl; [reflexivity|].
  destruct (split_lines s) as [ls rest]. simpl in IH.
  destruct (Z.eqb_spec x LF) as [->|Hx].
  - destruct (Z.eq_dec LF LF); [simpl; congruence | congruence].
  - destruct (Z.eq_dec x LF); [congruence|].
    destruct ls; simpl in *; assumption.
Qed.

Lemma flat_map_short {A B : Type} (f : A -> list B) (l : list A) :
  Forall (fun a => (length (f a) <= 1)%nat) l ->
  (length (flat_map f l) <= length l)%nat.
Proof.
  induction 1 as [|a l Ha _ IH]; simpl; [lia|].
  rewrite length_app. lia.
Qed.

(** A fragment of a line is the truthy [content] of what the line parses
    to. *)
Lemma fragment_of_inv (line : jsstring) (v : value) :
  In v (fragment_of line) ->
  exists parsed,
    JSON.parse (jsonPart (trim line)) = Some parsed
    /\ v = get_content parsed /\ truthy v = true.
Proof.
  unfold fragment_of, process_line.
  destruct (trim line); [intros []|].
  destruct (JSON.parse _) as [parsed|]; [|intros []].
  destruct (truthy (get_content parsed)) eqn:E; [|intros []].
  intros [<-|[]]. eauto.
Qed.

(** X7. Whatever the stream, every fragment returned is truthy (never
    [undefined], [null], [false], a zero or the empty string) and is the
    [content] property of the value some newline-terminated line parsed
    to; and there are at most as many fragments as the decoded text has
    newlines. *)
Theorem fragments_are_truthy_contents (chunks : list (list Z)) :
  Forall (fun v =>
            truthy v = true
            /\ exists line parsed,
                In line (fst (split_lines (stream_text chunks)))
                /\ JSON.parse (jsonPart (trim line)) = Some parsed
                /\ v = get_content parsed)
         (contents (read_loop chunks))
  /\ (length (contents (read_loop chunks))
      <= count_occ Z.eq_dec (stream_text chunks) LF)%nat.
Proof.
  destruct (read_loop_text chunks) as [_ ->].
  rewrite (drain_split_lines (length (stream_text chunks))) by lia. simpl.
  split.
  - apply Forall_forall. intros v Hv. apply in_flat_map in Hv as (line & Hl & Hv).
    destruct (fragment_of_inv _ _ Hv) as (parsed & Hp & -> & Ht). eauto 6.
  - rewrite <- split_lines_count. apply flat_map_short.
    apply Forall_forall. intros l _. apply fragment_of_short.
Qed.

(** X8. Streams compose: when the text of a first stream ends with a
    newline (or is empty), the fragments of that text followed by a second
    text are the fragments of the first followed by those of the second. *)
Theorem complete_streams_compose
        (both first second : list (list Z)) :
  stream_text both = stream_text first ++ stream_text second ->
  complete (stream_text first) ->
  contents (read_loop both)
  = contents (read_loop first) ++ contents (read_loop second).
Proof.
  intros Ht Hc.
  destruct (read_loop_text both) as [_ ->].
  destruct (read_loop_text first) as [_ ->].
  destruct (read_loop_text second) as [_ ->].
  rewrite Ht, drain_after_complete by assumption.
  rewrite (drain_appends (length (stream_text second))) by lia. reflexivity.
Qed.

Lemma complete_streams_compose_witness :
  contents (read_loop [record_a ++ record_b; record_a])
  = contents (read_loop [record_a; record_b]) ++ contents (read_loop [record_a]).
Proof.
  apply complete_streams_compose.
  - vm_compute. reflexivity.
  - right. exists (jsq "data: {'content':'a'}" ++ LF :: jsq "data: {'content':'b'}").
    vm_compute. reflexivity.
Defined.

(* ================================================================== *)
(** * Trimming *)
(* ================================================================== *)

Lemma trimStart_idem (s : jsstring) : trimStart (trimStart s) = trimStart s.
Proof.
  induction s as [|c s IH]; simpl; [reflexivity|].
  destruct (is_white_space c) eqn:E; [assumption|]. simpl. now rewrite E.
Qed.

Lemma trimStart_head (s r : jsstring) (c : Z) :
  trimStart s = c :: r -> is_white_space c = false.
Proof.
  induction s as [|x s IH]; simpl; [discriminate|].
  destruct (is_white_space x) eqn:E; [assumption|]. now intros [= <- _].
Qed.

(** White space in front, then the rest. *)
Lemma trimStart_split (s : jsstring) :
  exists w, s = w ++ trimStart s /\ Forall (fun x => is_white_space x = true) w.
Proof.
  induction s as [|x s (w & Hs & Hw)]; simpl; [exists []; auto|].
  destruct (is_white_space x) eqn:E.
  - exists (x :: w). simpl. rewrite <- Hs. auto.
  - exists []. auto.
Qed.

Lemma trimStart_white (w s : jsstring) :
  Forall (fun x => is_white_space x = true) w -> trimStart (w ++ s) = trimStart s.
Proof. induction 1 as [|x w Hx _ IH]; simpl; [reflexivity | now rewrite Hx]. Qed.

Lemma trimStart_app (s t : jsstring) :
  trimStart s <> [] -> trimStart (s ++ t) = trimStart s ++ t.
Proof.
  induction s as [|x s IH]; simpl; [congruence|].
  destruct (is_white_space x); auto.
Qed.

Lemma trimStart_app_nil (s t : jsstring) :
  trimStart s = [] -> trimStart (s ++ t) = trimStart t.
Proof.
  induction s as [|x s IH]; simpl; [reflexivity|].
  destruct (is_white_space x); [assumption | discriminate].
Qed.

Lemma trimEnd_idem (s : jsstring) : trimEnd (trimEnd s) = trimEnd s.
Proof. unfold trimEnd. now rewrite rev_involutive, trimStart_idem. Qed.

Lemma trimEnd_cons (b : Z) (x : jsstring) :
  is_white_space b = false -> trimEnd (b :: x) = b :: trimEnd x.
Proof.
  intros Hb. unfold trimEnd. simpl rev.
  destruct (trimStart (rev x)) as [|c r] eqn:E.
  - rewrite trimStart_app_nil by assumption. simpl. now rewrite Hb.
  - rewrite trimStart_app by congruence. rewrite E, rev_app_distr. reflexivity.
Qed.

Lemma trimEnd_app (a : jsstring) (b : Z) (x : jsstring) :
  is_white_space b = false -> trimEnd (a ++ b :: x) = a ++ b :: trimEnd x.
Proof.
  intros Hb. rewrite <- (trimEnd_cons b x Hb).
  assert (N : trimStart (rev (b :: x)) <> []).
  { intros E. pose proof (trimEnd_cons b x Hb) as T. unfold trimEnd in T.
    rewrite E in T. discriminate. }
  unfold trimEnd. rewrite rev_app_distr, trimStart_app by assumption.
  now rewrite rev_app_distr, rev_involutive.
Qed.

Lemma trimEnd_white (s : jsstring) (w : Z) :
  is_white_space w = true -> trimEnd (s ++ [w]) = trimEnd s.
Proof.
  intros Hw. unfold trimEnd. rewrite rev_app_distr. simpl. now rewrite Hw.
Qed.

(** What [trim] gives: nothing for white space, and else the text from
    its first to its last character that is not white space. *)
Lemma trim_cases (s : jsstring) :
  (trimStart s = [] /\ trim s = [])
  \/ exists w b y,
      s = w ++ b :: y
      /\ Forall (fun x => is_white_space x = true) w
      /\ is_white_space b = false
      /\ trimStart s = b :: y
      /\ trim s = b :: trimEnd y.
Proof.
  destruct (trimStart_split s) as (w & Hs & Hw).
  unfold trim. destruct (trimStart s) as [|b y] eqn:E.
  - left. auto.
  - right. exists w, b, y. pose proof (trimStart_head _ _ _ E) as Hb.
    repeat split; auto. now apply trimEnd_cons.
Qed.

Lemma trim_head (s r : jsstring) (c : Z) :
  trim s = c :: r -> is_white_space c = false.
Proof.
  destruct (trim_cases s) as [[_ ->]|(w & b & y & _ & _ & Hb & _ & ->)];
    [discriminate | now intros [= <- _]].
Qed.

Lemma trim_white_front (w s : jsstring) :
  Forall (fun x => is_white_space x = true) w -> trim (w ++ s) = trim s.
Proof. intros H. unfold trim. now rewrite trimStart_white. Qed.

Lemma trim_white_back (s : jsstring) (w : Z) :
  is_white_space w = true -> trim (s ++ [w]) = trim s.
Proof.
  intros Hw. unfold trim.
  destruct (trimStart s) as [|b y] eqn:E.
  - rewrite trimStart_app_nil by assumption. simpl. now rewrite Hw.
  - rewrite trimStart_app by congruence. rewrite E.
    change ((b :: y) ++ [w]) with (b :: y ++ [w]).
    pose proof (trimStart_head _ _ _ E) as Hb.
    rewrite !trimEnd_cons by assumption. now rewrite trimEnd_white.
Qed.

Lemma trim_trimEnd (s : jsstring) : trim (trimEnd s) = trim s.
Proof.
  destruct (trim_cases s) as [[E T]|(w & b & y & -> & Hw & Hb & E & T)].
  - rewrite T. unfold trim in *.
    assert (R : trimEnd s = []).
    { destruct (trimStart_split s) as (w & Hs & Hw). rewrite E, app_nil_r in Hs.
      subst w. unfold trimEnd.
      assert (A : forall l, Forall (fun x => is_white_space x = true) l ->
                            trimStart l = []).
      { induction 1 as [|x l Hx _ IH]; simpl; [reflexivity | now rewrite Hx]. }
      rewrite A; [reflexivity | now apply Forall_rev]. }
    rewrite R. reflexivity.
  - rewrite T, trimEnd_app by assumption.
    unfold trim. rewrite trimStart_white by assumption. simpl. rewrite Hb.
    rewrite trimEnd_cons by assumption. now rewrite trimEnd_idem.
Qed.

(* ================================================================== *)
(** * What a line may look like *)
(* ================================================================== *)

Lemma process_line_white_back (line : jsstring) (w : Z) (c : list value) :
  is_white_space w = true -> process_line (line ++ [w]) c = process_line line c.
Proof. intros Hw. unfold process_line. now rewrite trim_white_back. Qed.

Lemma drain_white_before_newline (n : nat) (w : Z) :
  is_white_space w = true -> w <> LF ->
  forall (pre post : jsstring) (c : list value),
    (length pre <= n)%nat ->
    drain (pre ++ w :: LF :: post) c = drain (pre ++ LF :: post) c.
Proof.
  intros Hw Hn. induction n as [|n IH]; intros pre post c Hl.
  - destruct pre; [|simpl in Hl; lia].
    change ([] ++ w :: LF :: post) with ([w] ++ LF :: post).
    rewrite (drain_line [w]), (drain_line []) by (simpl; intuition).
    f_equal. apply (process_line_white_back []). assumption.
  - destruct (first_occurrence LF pre) as [H|(l & r & -> & H)].
    + change (pre ++ w :: LF :: post) with (pre ++ [w] ++ LF :: post).
      rewrite app_assoc, !drain_line; try assumption.
      * now rewrite process_line_white_back.
      * intros Hin. apply in_app_or in Hin as [Hin|[Hin|[]]]; auto.
    + rewrite <- !app_assoc. simpl app. rewrite !drain_line by assumption.
      apply IH. rewrite length_app in Hl. simpl in Hl. lia.
Qed.

(** X9. Lines may end in CR LF: a carriage return, or any other white
    space, just before a newline changes nothing in the result. *)
Theorem carriage_return_is_ignored
        (chunks chunks' : list (list Z)) (pre post : jsstring) (w : Z) :
  is_white_space w = true -> w <> LF ->
  stream_text chunks = pre ++ w :: LF :: post ->
  stream_text chunks' = pre ++ LF :: post ->
  read_body (mkBody chunks None) = read_body (mkBody chunks' None).
Proof.
  intros Hw Hn Ht Ht'. rewrite !read_body_ends, Ht, Ht'.
  now rewrite (drain_white_before_newline (length pre) w Hw Hn).
Qed.

Lemma carriage_return_is_ignored_witness :
  read_body (mkBody [jsq "data: {'content':'a'}" ++ [13; 10]] None)
  = read_body (mkBody [record_a] None).
Proof.
  apply (carriage_return_is_ignored _ _ (jsq "data: {'content':'a'}") [] 13);
    try reflexivity.
  discriminate.
Defined.

Lemma startsWith_app (p z : jsstring) : startsWith (p ++ z) p = true.
Proof.
  induction p as [|y p IH]; simpl; [destruct z; reflexivity|].
  now rewrite Z.eqb_refl.
Qed.

Lemma process_line_data_prefix (indent x : jsstring) (c : list value) :
  Forall (fun w => is_white_space w = true) indent ->
  startsWith (trim x) (js "data:") = false ->
  process_line (indent ++ js "data:" ++ x) c = process_line x c.
Proof.
  intros Hi Hx. unfold process_line.
  rewrite trim_white_front by assumption.
  assert (T : trim (js "data:" ++ x) = js "data:" ++ trimEnd x).
  { unfold trim. change (trimStart (js "data:" ++ x)) with (js "data:" ++ x).
    apply (trimEnd_app (js "data") 58 x). reflexivity. }
  rewrite T.
  change (js "data:" ++ trimEnd x) with (100 :: js "ata:" ++ trimEnd x) at 1.
  cbv iota.
  assert (J : jsonPart (js "data:" ++ trimEnd x) = trim x).
  { unfold jsonPart.
    rewrite startsWith_app.
    change (js "data:" ++ trimEnd x) with (js "data" ++ 58 :: trimEnd x).
    change 5 with (Z.of_nat (length (js "data")) + 1).
    rewrite slice_suffix. apply trim_trimEnd. }
  rewrite J. destruct (trim x) as [|a r] eqn:E; [reflexivity|].
  unfold jsonPart. rewrite Hx. reflexivity.
Qed.

(** X10. The [data:] prefix is optional: a line that is [data:] followed
    by some text (white space before the prefix and around the text
    allowed) gives what the text gives as a line of its own, as long as
    the text does not itself start with [data:]. *)
Theorem data_prefix_is_optional
        (indent x rest : jsstring) (out : list value) :
  Forall (fun w => is_white_space w = true) indent ->
  ~ In LF indent -> ~ In LF x ->
  startsWith (trim x) (js "data:") = false ->
  drain (indent ++ js "data:" ++ x ++ LF :: rest) out
  = drain (x ++ LF :: rest) out.
Proof.
  intros Hi Hn Hx Hs.
  replace (indent ++ js "data:" ++ x ++ LF :: rest)
    with ((indent ++ js "data:" ++ x) ++ LF :: rest)
    by (now rewrite <- !app_assoc).
  rewrite !drain_line; [now rewrite process_line_data_prefix | assumption |].
  intros Hin. apply in_app_or in Hin as [Hin|Hin]; [auto|].
  apply in_app_or in Hin as [Hin|Hin]; [|auto].
  vm_compute in Hin. intuition discriminate.
Qed.

Lemma data_prefix_is_optional_witness :
  drain (js "  data:" ++ jsq " {'content':'a'} " ++ LF :: js "x") []
  = drain (jsq " {'content':'a'} " ++ LF :: js "x") [].
Proof.
  apply (data_prefix_is_optional (js "  ") (jsq " {'content':'a'} ") (js "x") []).
  - repeat constructor.
  - vm_compute. intuition discriminate.
  - vm_compute. intuition discriminate.
  - reflexivity.
Defined.

Lemma white_space_covers_json (c : Z) :
  is_white_space c = false -> JSON.is_ws c = false.
Proof.
  unfold is_white_space, JSON.is_ws. intros H.
  repeat (apply orb_false_iff in H as [H ?]).
  repeat (apply orb_false_iff; split); assumption.
Qed.

(** No JSON text starts with any other character. *)
Lemma parse_wrong_start (c : Z) (r : jsstring) :
  is_white_space c = false -> starts_json c = false ->
  JSON.parse (c :: r) = None.
Proof.
  intros Hw Hs. unfold JSON.parse.
  replace (2 * length (c :: r) + 1)%nat with (S (2 * length (c :: r))) by lia.
  unfold starts_json in Hs.
  repeat (apply orb_false_iff in Hs as [Hs ?]).
  cbn [JSON.parse_value JSON.skip_ws].
  rewrite (white_space_covers_json c Hw).
  repeat match goal with H : _ = false |- _ => rewrite H; clear H end.
  reflexivity.
Qed.

Lemma jsonPart_head (line r : jsstring) (c : Z) :
  jsonPart (trim line) = c :: r -> is_white_space c = false.
Proof.
  unfold jsonPart. destruct (startsWith (trim line) (js "data:"));
    apply trim_head.
Qed.

(** X11. A line whose text (after trimming and after the [data:] prefix,
    if any) starts with a character no JSON text starts with contributes
    nothing and raises nothing: the comment lines and the [event:], [id:]
    and [retry:] fields of the event-stream format are passed over. *)
Theorem other_fields_are_ignored
        (line rest : jsstring) (out : list value) (c : Z) (r : jsstring) :
  ~ In LF line ->
  jsonPart (trim line) = c :: r ->
  starts_json c = false ->
  drain (line ++ LF :: rest) out = drain rest out.
Proof.
  intros Hl Hj Hs. rewrite drain_line by assumption.
  rewrite process_line_malformed; [reflexivity|].
  rewrite Hj. apply parse_wrong_start; [|assumption].
  eapply jsonPart_head. eassumption.
Qed.

Lemma other_fields_are_ignored_witness :
  drain (js "event: message" ++ LF :: js ": keep-alive" ++ LF :: record_a) []
  = drain record_a [].
Proof.
  eapply eq_trans.
  - apply (other_fields_are_ignored (js "event: message") _ [] 101
             (js "vent: message")).
    + vm_compute. intuition discriminate.
    + reflexivity.
    + reflexivity.
  - apply (other_fields_are_ignored (js ": keep-alive") _ [] 58 (js " keep-alive")).
    + vm_compute. intuition discriminate.
    + reflexivity.
    + reflexivity.
Defined.

(* ================================================================== *)
(** * Outcomes of the operations *)
(* ================================================================== *)

(** Whether a message passes the two checks of [sendMessageStream]. *)
Lemma sendMessageStream_valid (m : Message) :
  truthy (of_string (sessionId m)) = true ->
  truthy (of_string (text m)) || truthy (inlineData m) = true ->
  sendMessageStream m
  = (res <- fetch (run_sse m) ;;
     if negb (ok res) then Raise (http_error res)
     else
       match res_body res with
       | None => Raise (new_Error (js "Streaming not supported in this browser."))
       | Some b => await (read_body b)
       end).
Proof.
  intros Hs Hm. unfold sendMessageStream. rewrite Hs.
  apply orb_true_iff in Hm.
  replace (negb (truthy (of_string (text m))) && negb (truthy (inlineData m)))
    with false by (destruct Hm as [-> | ->]; simpl; auto using andb_false_r).
  reflexivity.
Qed.

(** X12. How a valid call to [sendMessageStream] fails once the request
    is out: a rejected [fetch] rejects the call with the same error; a
    non-success response gives an Error with the body text or else the
    status; a successful response without a body (a 204, say) gives the
    "Streaming not supported" Error; and a reader that fails after any
    number of chunks rejects the call with the reader's error, the
    fragments decoded so far being lost. *)
Theorem sendMessageStream_failures (w : World) (m : Message) :
  truthy (of_string (sessionId m)) = true ->
  truthy (of_string (text m)) || truthy (inlineData m) = true ->
  (forall e, w (run_sse m) = Rejected e ->
             run w (sendMessageStream m) = ([run_sse m], Throw e))
  /\ (forall res, w (run_sse m) = Resolved res -> ok res = false ->
                  run w (sendMessageStream m) = ([run_sse m], Throw (http_error res))
                  /\ carries_text_or_status res (http_error res))
  /\ (forall res, w (run_sse m) = Resolved res -> ok res = true ->
                  res_body res = None ->
                  run w (sendMessageStream m)
                  = ([run_sse m],
                     Throw (new_Error (js "Streaming not supported in this browser."))))
  /\ (forall res b e, w (run_sse m) = Resolved res -> ok res = true ->
                      res_body res = Some b -> failure b = Some e ->
                      run w (sendMessageStream m) = ([run_sse m], Throw e)).
Proof.
  intros Hs Hm. rewrite (sendMessageStream_valid m Hs Hm), run_fetch.
  split; [intros e ->; reflexivity|].
  split; [intros res -> Hok; rewrite Hok; split;
          [reflexivity | apply http_error_carries]|].
  split; [intros res -> Hok Hb; rewrite Hok, Hb; reflexivity|].
  intros res b e -> Hok Hb Hf. rewrite Hok, Hb. simpl.
  unfold read_body. rewrite Hf. reflexivity.
Qed.

Lemma sendMessageStream_failures_witness :
  run broken_stream (sendMessageStream slide)
  = ([run_sse slide], Throw (mkExn (js "TypeError") (js "network error")))
  /\ run (fun _ => Resolved (mkResponse 204 None)) (sendMessageStream slide)
     = ([run_sse slide],
        Throw (new_Error (js "Streaming not supported in this browser."))).
Proof.
  split.
  - destruct (sendMessageStream_failures broken_stream slide eq_refl eq_refl)
      as (_ & _ & _ & H).
    apply (H _ _ _ eq_refl eq_refl eq_refl eq_refl).
  - destruct (sendMessageStream_failures
                (fun _ => Resolved (mkResponse 204 None)) slide eq_refl eq_refl)
      as (_ & _ & H & _).
    apply (H _ eq_refl eq_refl eq_refl).
Defined.

(** X13. Outside [listSessions] a network failure is not caught: when
    [fetch] rejects, [createSession], [deleteSession], [getSession] and
    [uploadFile] reject with the very error of [fetch], after that one
    request. *)
Theorem network_failure_propagates
        (w : World) (e : Exn) (id : jsstring) (file : File) :
  (w createSession_request = Rejected e ->
   run w createSession = ([createSession_request], Throw e))
  /\ (w (deleteSession_request id) = Rejected e ->
      run w (deleteSession id) = ([deleteSession_request id], Throw e))
  /\ (w (getSession_request id) = Rejected e ->
      run w (getSession id) = ([getSession_request id], Throw e))
  /\ (w (uploadFile_request [(js "file", file)]) = Rejected e ->
      run w (uploadFile file)
      = ([uploadFile_request [(js "file", file)]], Throw e)).
Proof.
  repeat split; intros H.
  - unfold createSession. now rewrite run_fetch, H.
  - unfold deleteSession. now rewrite run_fetch, H.
  - unfold getSession. now rewrite run_fetch, H.
  - unfold uploadFile. cbv zeta. now rewrite run_fetch, H.
Qed.

Lemma network_failure_propagates_witness :
  run offline (uploadFile (mkFile (js "log.txt") [104; 105]))
  = ([uploadFile_request [(js "file", mkFile (js "log.txt") [104; 105])]],
     Throw (mkExn (js "TypeError") (js "Failed to fetch"))).
Proof.
  destruct (network_failure_propagates
              offline (mkExn (js "TypeError") (js "Failed to fetch"))
              (js "s1") (mkFile (js "log.txt") [104; 105]))
    as (_ & _ & _ & H).
  apply H. reflexivity.
Defined.

(** X14. A successful response never makes [createSession], [getSession],
    [uploadFile] or [deleteSession] fail, whatever its body: the first
    three return the parsed body, or [null] for a 204 and for a body that
    cannot be read or is not JSON; [deleteSession] returns [undefined]
    without reading the body. *)
Theorem success_never_throws
        (w : World) (res : Response) (id : jsstring) (file : File) :
  ok res = true ->
  (w createSession_request = Resolved res ->
   run w createSession = ([createSession_request], Return (safeJson res)))
  /\ (w (getSession_request id) = Resolved res ->
      run w (getSession id) = ([getSession_request id], Return (safeJson res)))
  /\ (w (uploadFile_request [(js "file", file)]) = Resolved res ->
      run w (uploadFile file)
      = ([uploadFile_request [(js "file", file)]], Return (safeJson res)))
  /\ (w (deleteSession_request id) = Resolved res ->
      run w (deleteSession id) = ([deleteSession_request id], Return Undefined))
  /\ (forall v, status res <> 204 -> Response_json res = Return v ->
                safeJson res = v)
  /\ (status res = 204 \/ (exists e, Response_json res = Throw e) ->
      safeJson res = Null).
Proof.
  intros Hok. repeat split.
  - intros H. unfold createSession. now rewrite run_fetch, H, Hok.
  - intros H. unfold getSession. now rewrite run_fetch, H, Hok.
  - intros H. unfold uploadFile. cbv zeta. now rewrite run_fetch, H, Hok.
  - intros H. unfold deleteSession. now rewrite run_fetch, H, Hok.
  - intros v Hs Hj. unfold safeJson. apply Z.eqb_neq in Hs. now rewrite Hs, Hj.
  - intros [Hs|(e & Hj)]; unfold safeJson; [now rewrite Hs|].
    rewrite Hj. now destruct (status res =? 204).
Qed.

Lemma success_never_throws_witness :
  run (answers (js "<html>")) createSession
  = ([createSession_request], Return Null)
  /\ run broken_stream (deleteSession (js "s1"))
     = ([deleteSession_request (js "s1")], Return Undefined).
Proof.
  split.
  - destruct (success_never_throws
                (answers (js "<html>"))
                (mkResponse 200 (Some (mkBody [js "<html>"] None)))
                (js "s1") (mkFile [] []) eq_refl) as (H & _).
    apply (H eq_refl).
  - destruct (success_never_throws
                broken_stream
                (mkResponse 200
                   (Some (mkBody [record_a]
                            (Some (mkExn (js "TypeError") (js "network error"))))))
                (js "s1") (mkFile [] []) eq_refl) as (_ & _ & _ & H & _).
    apply (H eq_refl).
Defined.

(* ================================================================== *)
(** * What sendMessageStream sends *)
(* ================================================================== *)

Lemma run_valid_trace (w : World) (m : Message) :
  truthy (of_string (sessionId m)) = true ->
  truthy (of_string (text m)) || truthy (inlineData m) = true ->
  exists o, run w (sendMessageStream m) = ([run_sse m], o).
Proof.
  intros Hs Hm.
  pose proof (sendMessageStream_one_request w m Hs Hm) as H.
  destruct (run w (sendMessageStream m)) as [t o]. simpl in H. subst t. eauto.
Qed.


(** X15. Validation, exactly: the call fails with "No active session id"
    and without a request if and only if sessionId is absent or empty,
    whatever the message; it fails with "Message empty" and without a
    request if and only if sessionId is there and both text and
    inlineData are falsy; in every other case exactly one request is
    issued. *)
Theorem validation_exactly (w : World) (m : Message) :
  (run w (sendMessageStream m)
   = ([], Throw (new_Error (js "No active session id")))
   <-> truthy (of_string (sessionId m)) = false)
  /\ (run w (sendMessageStream m) = ([], Throw (new_Error (js "Message empty")))
      <-> truthy (of_string (sessionId m)) = true
          /\ truthy (of_string (text m)) = false
          /\ truthy (inlineData m) = false)
  /\ (fst (run w (sendMessageStream m)) = [run_sse m]
      <-> truthy (of_string (sessionId m)) = true
          /\ truthy (of_string (text m)) || truthy (inlineData m) = true).
Proof.
  destruct (truthy (of_string (sessionId m))) eqn:Es.
  - destruct (truthy (of_string (text m)) || truthy (inlineData m)) eqn:Em.
    + destruct (run_valid_trace w m Es Em) as [o ->].
      repeat split; try discriminate; try assumption; auto.
      * intros (_ & Ht & Hi). rewrite Ht, Hi in Em. discriminate.
    + assert (R : run w (sendMessageStream m)
                  = ([], Throw (new_Error (js "Message empty")))).
      { unfold sendMessageStream. rewrite Es.
        apply orb_false_iff in Em as [-> ->]. reflexivity. }
      rewrite R. apply orb_false_iff in Em as [Ht Hi].
      repeat split; try discriminate; try assumption; auto.
      * intros [_ H]. discriminate.
  - assert (R : run w (sendMessageStream m)
                = ([], Throw (new_Error (js "No active session id")))).
    { unfold sendMessageStream. rewrite Es. reflexivity. }
    rewrite R. repeat split; try discriminate; auto.
    + intros (H & _). discriminate.
    + intros (H & _). discriminate.
Qed.




(** X17. What [listSessions] returns is never falsy: it is the empty
    sequence, or the parsed body of a successful response, passed on as
    it is whatever its type (an object or a number as well as an array);
    and every successful response whose body parses to a truthy value
    gives that value. *)
Theorem listSessions_result (w : World) :
  (forall v, snd (run w listSessions) = Return v ->
             truthy v = true
             /\ (v = Array []
                 \/ exists res, w listSessions_request = Resolved res
                                /\ ok res = true /\ status res <> 204
                                /\ Response_json res = Return v))
  /\ (forall res v, w listSessions_request = Resolved res ->
                    ok res = true -> status res <> 204 ->
                    Response_json res = Return v -> truthy v = true ->
                    run w listSessions = ([listSessions_request], Return v)).
Proof.
  assert (R : run w listSessions
              = ([listSessions_request],
                 Return (match w listSessions_request with
                         | Resolved res =>
                             if negb (ok res) then Array []
                             else or_else (safeJson res) (Array [])
                         | Rejected _ => Array []
                         end))).
  { unfold listSessions. simpl. destruct (w listSessions_request) as [res|e];
      simpl; [destruct (ok res)|]; reflexivity. }
  rewrite R. simpl. split.
  - intros v. destruct (w listSessions_request) as [res|e] eqn:Hw;
      [|intros [= <-]; auto].
    destruct (ok res) eqn:Hok; simpl; [|intros [= <-]; auto].
    unfold or_else, safeJson.
    destruct (Z.eqb_spec (status res) 204) as [Hs|Hs]; [intros [= <-]; auto|].
    destruct (Response_json res) as [v0|e] eqn:Hj; [|intros [= <-]; auto].
    destruct (truthy v0) eqn:Ht; intros [= <-]; [|auto].
    split; [assumption|]. right. exists res. auto.
  - intros res v -> Hok Hs Hj Ht. rewrite Hok. simpl.
    unfold or_else, safeJson. apply Z.eqb_neq in Hs. now rewrite Hs, Hj, Ht.
Qed.

Lemma listSessions_result_witness :
  run (answers (jsq "{'error':'down'}")) listSessions
  = ([listSessions_request], Return (Object [(js "error", Str (js "down"))])).
Proof.
  destruct (listSessions_result (answers (jsq "{'error':'down'}"))) as [_ H].
  apply (H (mkResponse 200 (Some (mkBody [jsq "{'error':'down'}"] None))));
    try reflexivity.
  discriminate.
Defined.

(* ================================================================== *)
(** * The label [vehicle] *)
(* ================================================================== *)

Lemma match_here_id (s : jsstring) :
  RegExp.match_here id_pattern s = scan_id s.
Proof.
  unfold RegExp.match_here, id_pattern, scan_id.
  rewrite matcher_seq, matcher_word.
  destruct (strip_word (js "id") s); [apply matcher_vehicle_token | reflexivity].
Qed.

Lemma scan_id_head (x : Z) (s : jsstring) :
  RegExp.canonicalize x <> 73 -> scan_id (x :: s) = None.
Proof.
  intros H. unfold scan_id.
  change (strip_word (js "id") (x :: s))
    with (if RegExp.canonicalize x =? 73 then strip_word (js "d") s else None).
  apply Z.eqb_neq in H. now rewrite H.
Qed.

Lemma scan_id_second (x y : Z) (s : jsstring) :
  RegExp.canonicalize y <> 68 -> scan_id (x :: y :: s) = None.
Proof.
  intros H. unfold scan_id.
  change (strip_word (js "id") (x :: y :: s))
    with (if RegExp.canonicalize x =? 73
          then if RegExp.canonicalize y =? 68 then Some s else None
          else None).
  apply Z.eqb_neq in H. rewrite H. now destruct (RegExp.canonicalize x =? 73).
Qed.

(** No match of the short pattern starts inside the label [vehicle] or
    in the white space after it. *)
Lemma no_id_in_vehicle (w run s : jsstring) :
  map RegExp.canonicalize w = map RegExp.canonicalize (js "vehicle") ->
  Forall (fun x => is_white_space x = true) run ->
  forall p1 p2, w ++ run = p1 ++ p2 -> p2 <> [] ->
                RegExp.match_here id_pattern (p2 ++ s) = None.
Proof.
  intros Hw Hrun p1 p2 Hsplit Hp2. rewrite match_here_id.
  destruct w as [|a1 [|a2 [|a3 [|a4 [|a5 [|a6 [|a7 [|? ?]]]]]]]];
    try discriminate.
  injection Hw as H1 H2 H3 H4 H5 H6 H7.
  change (RegExp.canonicalize 118) with 86 in H1.
  change (RegExp.canonicalize 101) with 69 in H2, H7.
  change (RegExp.canonicalize 104) with 72 in H3.
  change (RegExp.canonicalize 105) with 73 in H4.
  change (RegExp.canonicalize 99) with 67 in H5.
  change (RegExp.canonicalize 108) with 76 in H6.
  simpl in Hsplit.
  do 7 (destruct p1 as [|? p1];
        [simpl in Hsplit; subst p2; simpl;
         first [apply scan_id_head; lia | apply scan_id_second; lia]
        |injection Hsplit as <- Hsplit]).
  destruct p2 as [|x p2]; [congruence|].
  simpl. apply scan_id_head.
  assert (Hx : is_white_space x = true).
  { rewrite Hsplit in Hrun. apply Forall_app in Hrun as [_ Hrun].
    now inversion Hrun. }
  pose proof (white_space_not_letter x 73 Hx) as N.
  apply Z.eqb_neq. apply N. lia.
Qed.

(** X18. The alternative [vehicle\s*id] of the vehicle id pattern is
    redundant: on every text the pattern finds what the shorter pattern
    [/id[:\s]*([a-zA-Z0-9-]+)/i] finds, the same token and the same text
    after it, so the state delta does not depend on the word [vehicle]. *)
Theorem vehicle_label_is_redundant (t : jsstring) :
  RegExp.exec vehicleIdPattern t = RegExp.exec id_pattern t
  /\ stateDelta (Some t)
     = match RegExp.exec id_pattern t with
       | Some (_, group1) => Object [(js "vehicle_id", of_string group1)]
       | None => Null
       end.
Proof.
  assert (E : RegExp.exec vehicleIdPattern t = RegExp.exec id_pattern t).
  { induction t as [|x t IH].
    - reflexivity.
    - rewrite (exec_unfold vehicleIdPattern), (exec_unfold id_pattern).
      rewrite match_here_scan, match_here_id. unfold scan_here. fold (scan_id (x :: t)).
      destruct (strip_word (js "vehicle") (x :: t)) as [r|] eqn:Ev;
        [|rewrite IH; reflexivity].
      destruct (strip_word (js "id") (drop_while is_white_space r)) as [r'|] eqn:Ei;
        [|rewrite IH; reflexivity].
      destruct (token_run (drop_while is_separator r')) as [res|] eqn:Et;
        [|rewrite IH; reflexivity].
      destruct (strip_word_split _ _ _ Ev) as (w & Hs & Hw).
      assert (X : RegExp.exec id_pattern (x :: t) = Some res).
      { rewrite Hs, <- (take_drop_while is_white_space r), app_assoc.
        apply exec_leftmost.
        - rewrite match_here_id. unfold scan_id. now rewrite Ei.
        - apply no_id_in_vehicle; [assumption | apply take_while_all]. }
      rewrite exec_unfold, match_here_id in X. now rewrite X. }
  split; [assumption|]. now rewrite stateDelta_exec, E.
Qed.

(* ================================================================== *)
(** * Newlines and the decoder *)
(* ================================================================== *)

Lemma newlines_app (a b : list Z) : newlines (a ++ b) = (newlines a + newlines b)%nat.
Proof. apply count_occ_app. Qed.

Lemma newlines_one (c : Z) : newlines [c] = if c =? LF then 1%nat else 0%nat.
Proof.
  unfold newlines. simpl.
  destruct (Z.eq_dec c LF) as [->|H]; [reflexivity|].
  apply Z.eqb_neq in H. now rewrite H.
Qed.

Lemma code_units_newlines (cp : Z) :
  newlines (TextDecoder.code_units cp) = newlines [cp].
Proof.
  unfold TextDecoder.code_units. destruct (Z.ltb_spec cp 65536) as [H|H];
    [reflexivity|].
  pose proof (Z.shiftr_nonneg (cp - 65536) 10) as [_ S].
  pose proof (Z.land_nonneg (cp - 65536) 1023) as [_ L].
  specialize (S ltac:(lia)). specialize (L ltac:(lia)).
  change [55296 + Z.shiftr (cp - 65536) 10; 56320 + Z.land (cp - 65536) 1023]
    with ([55296 + Z.shiftr (cp - 65536) 10]
            ++ [56320 + Z.land (cp - 65536) 1023]).
  rewrite newlines_app, !newlines_one. unfold LF.
  destruct (Z.eqb_spec (55296 + Z.shiftr (cp - 65536) 10) 10); [lia|].
  destruct (Z.eqb_spec (56320 + Z.land (cp - 65536) 1023) 10); [lia|].
  destruct (Z.eqb_spec cp 10); [lia | reflexivity].
Qed.

(** Serialising drops at most a byte order mark, never a newline. *)
Lemma serialize_newlines (cps : list Z) :
  forall bom, newlines (snd (TextDecoder.serialize bom cps)) = newlines cps.
Proof.
  induction cps as [|cp cps IH]; intros bom; simpl; [reflexivity|].
  destruct (negb bom && (cp =? 65279)) eqn:E.
  - rewrite IH. apply andb_true_iff in E as [_ E]. apply Z.eqb_eq in E. subst cp.
    unfold newlines. simpl. destruct (Z.eq_dec 65279 LF); [discriminate | reflexivity].
  - specialize (IH true). destruct (TextDecoder.serialize true cps) as [b s].
    simpl in *. rewrite newlines_app, code_units_newlines, IH.
    change (cp :: cps) with ([cp] ++ cps). now rewrite newlines_app.
Qed.

Lemma continuation_bits (cp byte : Z) :
  0 <= cp -> 128 <= byte <= 191 ->
  0 <= Z.lor (Z.shiftl cp 6) (Z.land byte 63)
  /\ (1 <= cp -> 64 <= Z.lor (Z.shiftl cp 6) (Z.land byte 63))
  /\ (144 <= byte -> 16 <= Z.lor (Z.shiftl cp 6) (Z.land byte 63)).
Proof.
  intros Hc Hb.
  assert (L : Z.land byte 63 = byte - 128).
  { change 63 with (Z.ones 6). rewrite Z.land_ones by lia. change (2 ^ 6) with 64.
    pose proof (Z.mod_pos_bound byte 64). pose proof (Z.div_mod byte 64). lia. }
  assert (N : 0 <= Z.lor (Z.shiftl cp 6) (Z.land byte 63)).
  { apply Z.lor_nonneg. split; [apply Z.shiftl_nonneg; lia | lia]. }
  assert (S : Z.shiftr (Z.lor (Z.shiftl cp 6) (Z.land byte 63)) 6 = cp).
  { rewrite Z.shiftr_lor, Z.shiftr_shiftl_l by lia. simpl Z.sub.
    rewrite Z.shiftl_0_r, L, (Z.shiftr_div_pow2 _ 6) by lia.
    change (2 ^ 6) with 64. rewrite Z.div_small by lia. apply Z.lor_0_r. }
  rewrite Z.shiftr_div_pow2 in S by lia. change (2 ^ 6) with 64 in S.
  set (x := Z.lor (Z.shiftl cp 6) (Z.land byte 63)) in *.
  pose proof (Z.mod_pos_bound x 64). pose proof (Z.div_mod x 64).
  split; [assumption|]. split; [lia|].
  intros H144. destruct (Z.eq_dec cp 0) as [->|Hne]; [|lia].
  subst x. rewrite Z.shiftl_0_l, Z.lor_0_l, L. lia.
Qed.

Lemma lead_bits (byte : Z) :
  (194 <= byte <= 223 -> 2 <= Z.land byte 31)
  /\ (224 <= byte <= 239 -> 0 <= Z.land byte 15 /\ (Z.land byte 15 = 0 -> byte = 224))
  /\ (240 <= byte <= 244 -> 0 <= Z.land byte 7 /\ (Z.land byte 7 = 0 -> byte = 240)).
Proof.
  change 31 with (Z.ones 5). change 15 with (Z.ones 4). change 7 with (Z.ones 3).
  rewrite !Z.land_ones by lia.
  change (2 ^ 5) with 32. change (2 ^ 4) with 16. change (2 ^ 3) with 8.
  pose proof (Z.mod_pos_bound byte 32). pose proof (Z.div_mod byte 32).
  pose proof (Z.mod_pos_bound byte 16). pose proof (Z.div_mod byte 16).
  pose proof (Z.mod_pos_bound byte 8). pose proof (Z.div_mod byte 8).
  repeat split; lia.
Qed.

(** A lead byte: the state stays in order, and a newline comes out for
    the byte 0A and for no other. *)
Lemma lead_newlines (d : TextDecoder.t) (byte : Z) :
  TextDecoder.bytes_needed d = 0 ->
  decoder_ok (fst (TextDecoder.lead d byte))
  /\ newlines (snd (TextDecoder.lead d byte)) = newlines [byte].
Proof.
  intros Hd. unfold TextDecoder.lead.
  destruct (lead_bits byte) as (B2 & B3 & B4).
  destruct ((0 <=? byte) && (byte <=? 127)) eqn:E1;
    [split; [now left | reflexivity]|].
  assert (NL : newlines [byte] = 0%nat).
  { rewrite newlines_one. destruct (Z.eqb_spec byte LF) as [->|_];
      [discriminate | reflexivity]. }
  rewrite NL.
  destruct ((194 <=? byte) && (byte <=? 223)) eqn:E2.
  { split; [|reflexivity]. right. simpl. bools. lia. }
  destruct ((224 <=? byte) && (byte <=? 239)) eqn:E3.
  { split; [|reflexivity]. right. simpl. bools.
    destruct (Z.eqb_spec byte 224), (Z.eqb_spec byte 237); lia. }
  destruct ((240 <=? byte) && (byte <=? 244)) eqn:E4.
  { split; [|reflexivity]. right. simpl. bools.
    destruct (Z.eqb_spec byte 240), (Z.eqb_spec byte 244); lia. }
  split; [now left | reflexivity].
Qed.

Ltac fields :=
  cbn [fst snd TextDecoder.bytes_needed TextDecoder.bytes_seen
       TextDecoder.code_point TextDecoder.lower_boundary
       TextDecoder.upper_boundary TextDecoder.bom_seen].

Lemma handler_newlines (d : TextDecoder.t) (byte : Z) :
  decoder_ok d ->
  decoder_ok (fst (TextDecoder.handler d byte))
  /\ newlines (snd (TextDecoder.handler d byte)) = newlines [byte].
Proof.
  intros Hd. unfold TextDecoder.handler.
  destruct (Z.eqb_spec (TextDecoder.bytes_needed d) 0) as [H0|H0];
    [now apply lead_newlines|].
  destruct Hd as [Hd|(Hlo & Hup & Hcp & Hz)]; [contradiction|].
  destruct ((TextDecoder.lower_boundary d <=? byte)
            && (byte <=? TextDecoder.upper_boundary d)) eqn:E; simpl negb; cbv iota.
  - bools.
    destruct (continuation_bits (TextDecoder.code_point d) byte Hcp ltac:(lia))
      as (N & B64 & B16).
    assert (NL : newlines [byte] = 0%nat).
    { rewrite newlines_one. destruct (Z.eqb_spec byte LF) as [E|_];
        [unfold LF in E; lia | reflexivity]. }
    rewrite NL.
    destruct (Z.eqb_spec (TextDecoder.bytes_seen d + 1) (TextDecoder.bytes_needed d))
      as [Hs|Hs]; fields.
    + split; [now left|]. rewrite newlines_one.
      destruct (Z.eqb_spec
                  (Z.lor (Z.shiftl (TextDecoder.code_point d) 6) (Z.land byte 63)) LF)
        as [E|_]; [|reflexivity].
      unfold LF in E. destruct (Z.eq_dec (TextDecoder.code_point d) 0) as [C|C].
      * destruct (Hz C). contradiction.
      * lia.
    + split; [|reflexivity]. right. fields.
      destruct (Z.eq_dec (TextDecoder.code_point d) 0) as [C|C].
      * destruct (Hz C). lia.
      * lia.
  - destruct (lead_newlines
                (TextDecoder.mk 0 0 0 128 191 (TextDecoder.bom_seen d)) byte eq_refl)
      as [I N].
    destruct (TextDecoder.lead _ byte) as [d' out]. simpl in *.
    split; [assumption|].
    change (TextDecoder.replacement :: out) with ([TextDecoder.replacement] ++ out).
    rewrite newlines_app, N. reflexivity.
Qed.

Lemma step_newlines (d : TextDecoder.t) (byte : Z) :
  decoder_ok d ->
  decoder_ok (fst (TextDecoder.step d byte))
  /\ newlines (snd (TextDecoder.step d byte)) = newlines [byte].
Proof.
  intros Hd. unfold TextDecoder.step.
  destruct (handler_newlines d byte Hd) as [I N].
  destruct (TextDecoder.handler d byte) as [d' cps]. simpl in I, N.
  pose proof (serialize_newlines cps (TextDecoder.bom_seen d')) as S.
  destruct (TextDecoder.serialize (TextDecoder.bom_seen d') cps) as [b s].
  simpl in *. split; [exact I | congruence].
Qed.

Lemma decode_stream_newlines (bytes : list Z) :
  forall d, decoder_ok d ->
            decoder_ok (fst (TextDecoder.decode_stream d bytes))
            /\ newlines (snd (TextDecoder.decode_stream d bytes)) = newlines bytes.
Proof.
  induction bytes as [|byte bytes IH]; intros d Hd; simpl; [auto|].
  destruct (step_newlines d byte Hd) as [I N].
  destruct (TextDecoder.step d byte) as [d1 s1]. simpl in I, N.
  destruct (IH d1 I) as [I2 N2].
  destruct (TextDecoder.decode_stream d1 bytes) as [d2 s2]. simpl in *.
  split; [assumption|].
  change (byte :: bytes) with ([byte] ++ bytes).
  rewrite !newlines_app. congruence.
Qed.

(** X19. Only the byte 0A makes a line: whatever the bytes of the stream,
    valid UTF-8 or not, the decoded text has exactly as many newlines as
    the stream has bytes 0A. So no more fragments come out than the
    stream has such bytes, and a stream without one gives no fragment and
    leaves all of its text in the buffer. *)
Theorem newlines_come_from_newline_bytes (chunks : list (list Z)) :
  newlines (stream_text chunks) = newlines (concat chunks)
  /\ (length (contents (read_loop chunks)) <= newlines (concat chunks))%nat
  /\ (~ In LF (concat chunks) ->
      read_body (mkBody chunks None) = Return []
      /\ buffer (read_loop chunks) = stream_text chunks).
Proof.
  assert (N : newlines (stream_text chunks) = newlines (concat chunks)).
  { unfold stream_text.
    apply (decode_stream_newlines (concat chunks) TextDecoder.create).
    left. reflexivity. }
  split; [assumption|]. split.
  - rewrite <- N. destruct (read_loop_text chunks) as [_ ->].
    rewrite (drain_split_lines (length (stream_text chunks))) by lia. simpl.
    unfold newlines. rewrite <- split_lines_count. apply flat_map_short.
    apply Forall_forall. intros l _. apply fragment_of_short.
  - intros H. assert (T : ~ In LF (stream_text chunks)).
    { apply (count_occ_not_In Z.eq_dec). fold (newlines (stream_text chunks)).
      rewrite N. now apply (count_occ_not_In Z.eq_dec). }
    destruct (read_loop_text chunks) as [-> _].
    rewrite read_body_ends, drain_done by assumption. auto.
Qed.

(** A euro sign cut in two, a stray continuation byte and a record
    without its newline. *)
Lemma newlines_come_from_newline_bytes_witness :
  read_body (mkBody [[226; 130]; [172; 191]; jsq "{'content':'a'}"] None) = Return []
  /\ buffer (read_loop [[226; 130]; [172; 191]; jsq "{'content':'a'}"])
     = stream_text [[226; 130]; [172; 191]; jsq "{'content':'a'}"].
Proof.
  apply newlines_come_from_newline_bytes. vm_compute. intuition discriminate.
Defined.

(* ================================================================== *)
(** * The byte order mark *)
(* ================================================================== *)

Lemma serialize_seen (cps : list Z) :
  fst (TextDecoder.serialize true cps) = true.
Proof.
  induction cps as [|cp cps IH]; simpl; [reflexivity|].
  destruct (TextDecoder.serialize true cps) as [b s]. simpl in *. assumption.
Qed.

(** With and without the mark seen, serialising differs by at most a
    leading U+FEFF. *)
Lemma serialize_either (cps : list Z) :
  (cps = [] /\ TextDecoder.serialize false cps = (false, [])
   /\ TextDecoder.serialize true cps = (true, []))
  \/ (fst (TextDecoder.serialize false cps) = true
      /\ fst (TextDecoder.serialize true cps) = true
      /\ (snd (TextDecoder.serialize true cps) = snd (TextDecoder.serialize false cps)
          \/ snd (TextDecoder.serialize true cps)
             = 65279 :: snd (TextDecoder.serialize false cps))).
Proof.
  destruct cps as [|cp cps]; [left; auto|]. right.
  pose proof (serialize_seen cps) as S. simpl.
  destruct (Z.eqb_spec cp 65279) as [->|_]; simpl;
    destruct (TextDecoder.serialize true cps) as [b s]; simpl in *; auto.
Qed.

(** The handler does not look at the mark. *)
Lemma handler_set_bom (d : TextDecoder.t) (b : bool) (byte : Z) :
  TextDecoder.handler (TextDecoder.set_bom d b) byte
  = (TextDecoder.set_bom (fst (TextDecoder.handler d byte)) b,
     snd (TextDecoder.handler d byte)).
Proof.
  destruct d as [cp seen needed lo up bom].
  unfold TextDecoder.handler, TextDecoder.lead, TextDecoder.set_bom. fields.
  repeat match goal with
         | |- context [if ?c then _ else _] => destruct c; fields; try reflexivity
         end.
Qed.

Lemma step_set_bom (d : TextDecoder.t) (b : bool) (byte : Z) :
  TextDecoder.step (TextDecoder.set_bom d b) byte
  = (TextDecoder.set_bom
       (fst (TextDecoder.handler d byte))
       (fst (TextDecoder.serialize b (snd (TextDecoder.handler d byte)))),
     snd (TextDecoder.serialize b (snd (TextDecoder.handler d byte)))).
Proof.
  unfold TextDecoder.step. rewrite handler_set_bom.
  destruct (TextDecoder.handler d byte) as [d' cps]. fields.
  destruct d' as [cp seen needed lo up bom]. unfold TextDecoder.set_bom at 1. fields.
  destruct (TextDecoder.serialize b cps). reflexivity.
Qed.

Lemma decode_stream_either (bytes : list Z) :
  forall d,
    snd (TextDecoder.decode_stream (TextDecoder.set_bom d true) bytes)
    = snd (TextDecoder.decode_stream (TextDecoder.set_bom d false) bytes)
    \/ snd (TextDecoder.decode_stream (TextDecoder.set_bom d true) bytes)
       = 65279 :: snd (TextDecoder.decode_stream (TextDecoder.set_bom d false) bytes).
Proof.
  induction bytes as [|byte bytes IH]; intros d; simpl; [auto|].
  rewrite !step_set_bom.
  destruct (serialize_either (snd (TextDecoder.handler d byte)))
    as [(_ & -> & ->)|(B1 & B2 & S)].
  - simpl. specialize (IH (fst (TextDecoder.handler d byte))).
    destruct (TextDecoder.decode_stream
                (TextDecoder.set_bom (fst (TextDecoder.handler d byte)) true) bytes),
      (TextDecoder.decode_stream
         (TextDecoder.set_bom (fst (TextDecoder.handler d byte)) false) bytes).
    exact IH.
  - rewrite B1, B2.
    destruct (TextDecoder.decode_stream
                (TextDecoder.set_bom (fst (TextDecoder.handler d byte)) true) bytes)
      as [D t].
    simpl. destruct S as [-> | ->]; auto.
Qed.

Lemma drain_white_front (w : Z) (t : jsstring) (c : list value) :
  is_white_space w = true -> w <> LF ->
  snd (drain (w :: t) c) = snd (drain t c).
Proof.
  intros Hw Hn. destruct (first_occurrence LF t) as [H|(l & r & -> & H)].
  - rewrite !drain_done; [reflexivity | assumption |].
    simpl. intros [E|E]; [congruence | auto].
  - change (w :: l ++ LF :: r) with ((w :: l) ++ LF :: r).
    rewrite !drain_line; [|assumption|simpl; intros [E|E]; [congruence | auto]].
    unfold process_line. change (w :: l) with ([w] ++ l).
    rewrite (trim_white_front [w] l) by (repeat constructor; assumption).
    reflexivity.
Qed.

(** X20. A byte order mark at the start of the stream changes nothing:
    the stream that begins with the bytes EF BB BF and the stream without
    them, cut into chunks in any way, give the same result. *)
Theorem byte_order_mark_is_ignored (chunks chunks' : list (list Z)) :
  concat chunks' = [239; 187; 191] ++ concat chunks ->
  read_body (mkBody chunks' None) = read_body (mkBody chunks None).
Proof.
  intros H. rewrite !read_body_ends. unfold stream_text. rewrite H.
  rewrite decode_stream_app.
  change (TextDecoder.decode_stream TextDecoder.create [239; 187; 191])
    with (TextDecoder.set_bom TextDecoder.create true, @nil Z).
  change TextDecoder.create with (TextDecoder.set_bom TextDecoder.create false) at 2.
  destruct (decode_stream_either (concat chunks) TextDecoder.create) as [E|E];
    destruct (TextDecoder.decode_stream
                (TextDecoder.set_bom TextDecoder.create true) (concat chunks))
      as [D t]; simpl in *; rewrite E; [reflexivity|].
  rewrite drain_white_front; [reflexivity | reflexivity | discriminate].
Qed.

Lemma byte_order_mark_is_ignored_witness :
  read_body (mkBody [[239; 187]; 191 :: record_a] None)
  = read_body (mkBody [record_a] None).
Proof. apply byte_order_mark_is_ignored. reflexivity. Defined.

(* ================================================================== *)
(** * The token of the state delta *)
(* ================================================================== *)

Lemma drop_while_head (p : Z -> bool) (s : jsstring) :
  match drop_while p s with
  | [] => True
  | x :: _ => p x = false
  end.
Proof.
  induction s as [|x s IH]; simpl; [exact I|].
  destruct (p x) eqn:E; [assumption | simpl; assumption].
Qed.

(** Where a match ends in a token, the token stands in the text. *)
Lemma scan_here_token (s : jsstring) (res : RegExp.state) :
  scan_here s = Some res ->
  exists pre s', s = pre ++ s' /\ token_run s' = Some res.
Proof.
  unfold scan_here. intros H.
  assert (Hid : match strip_word (js "id") s with
                | Some r => token_run (drop_while is_separator r)
                | None => None
                end = Some res ->
                exists pre s', s = pre ++ s' /\ token_run s' = Some res).
  { destruct (strip_word (js "id") s) as [r|] eqn:E; [|discriminate].
    destruct (strip_word_split _ _ _ E) as (w & -> & _). intros T.
    exists (w ++ take_while is_separator r), (drop_while is_separator r).
    now rewrite <- app_assoc, take_drop_while. }
  destruct (strip_word (js "vehicle") s) as [r|] eqn:Ev; [|auto].
  destruct (strip_word (js "id") (drop_while is_white_space r)) as [r'|] eqn:Ei;
    [|auto].
  destruct (token_run (drop_while is_separator r')) as [res'|] eqn:Et; [|auto].
  injection H as <-.
  destruct (strip_word_split _ _ _ Ev) as (w & -> & _).
  destruct (strip_word_split _ _ _ Ei) as (w' & Hr & _).
  exists (w ++ take_while is_white_space r ++ w' ++ take_while is_separator r'),
    (drop_while is_separator r').
  split; [|assumption].
  rewrite <- !app_assoc, take_drop_while, <- Hr, take_drop_while. reflexivity.
Qed.

(** X21. The vehicle id is a piece of the text as it was typed: whenever
    the pattern matches, group 1 is a nonempty run of letters, digits and
    hyphens that stands in the text just before what follows the match,
    and the run is whole, for what follows is the end of the text or a
    character of another kind. *)
Theorem vehicle_id_is_a_whole_token
        (t rest : jsstring) (group1 : option jsstring) :
  RegExp.exec vehicleIdPattern t = Some (rest, group1) ->
  exists pre c tok,
    group1 = Some (c :: tok)
    /\ t = pre ++ (c :: tok) ++ rest
    /\ Forall (fun x => is_token x = true) (c :: tok)
    /\ match rest with
       | [] => True
       | x :: _ => is_token x = false
       end
    /\ stateDelta (Some t) = Object [(js "vehicle_id", Str (c :: tok))].
Proof.
  intros H. destruct (exec_match_here _ _ _ H) as (p0 & s & -> & Hs).
  rewrite match_here_scan in Hs.
  destruct (scan_here_token _ _ Hs) as (p1 & s' & -> & Ht).
  destruct s' as [|c post]; [discriminate|]. simpl in Ht.
  destruct (is_token c) eqn:Ec; [|discriminate]. injection Ht as <- <-.
  exists (p0 ++ p1), c, (take_while is_token post).
  split; [reflexivity|]. split.
  - rewrite <- !app_assoc. simpl. now rewrite take_drop_while.
  - split; [constructor; [assumption | apply take_while_all]|].
    split; [apply drop_while_head|].
    rewrite stateDelta_exec, H. reflexivity.
Qed.

Lemma vehicle_id_is_a_whole_token_witness :
  exists pre c tok,
    Some (js "KA-01-ab") = Some (c :: tok)
    /\ js "Vehicle  ID :: KA-01-ab, please" = pre ++ (c :: tok) ++ js ", please"
    /\ Forall (fun x => is_token x = true) (c :: tok)
    /\ match js ", please" with
       | [] => True
       | x :: _ => is_token x = false
       end
    /\ stateDelta (Some (js "Vehicle  ID :: KA-01-ab, please"))
       = Object [(js "vehicle_id", Str (c :: tok))].
Proof.
  apply (vehicle_id_is_a_whole_token
           (js "Vehicle  ID :: KA-01-ab, please") (js ", please")
           (Some (js "KA-01-ab"))).
  vm_compute. reflexivity.
Defined.
